(** * MCP23017: register-level driver for the 16-bit I2C GPIO expander

    A shallow embedding of [MCP23017.hpp].  The class keeps a single field,
    the file descriptor of the i2c-dev node; everything else lives in the
    chip.  Every method is a state transformer over a [World] made of the
    chip's register file, the operating system's answers to the system
    calls, the log of system calls issued so far and the lines printed on
    [std::cerr]. *)

From Stdlib Require Import ZArith List String Bool Lia Sorted.
Import ListNotations.
Local Open Scope string_scope.
Local Open Scope list_scope.
Local Open Scope Z_scope.

(** ** Fixed-width integers *)

(** Conversion to [uint8_t] and to [uint16_t]. *)
Definition u8 (x : Z) : Z := x mod 256.
Definition u16 (x : Z) : Z := x mod 65536.

(** [v |= (1 << bit)] on a [uint8_t] lvalue: the operands are promoted to
    [int], the result is converted back. *)
Definition or_bit (v bit : Z) : Z := u8 (Z.lor v (Z.shiftl 1 bit)).

(** [v &= ~(1 << bit)] on a [uint8_t] lvalue. *)
Definition and_not_bit (v bit : Z) : Z := u8 (Z.land v (Z.lnot (Z.shiftl 1 bit))).

(** [x & (1 << pin)] used as a condition or converted to [bool]. *)
Definition mask_test (x pin : Z) : bool := negb (Z.land x (Z.shiftl 1 pin) =? 0).

(** ** Enumerations of the header *)

Inductive pin_Mode : Type := INPUT | OUTPUT | INPUT_PULLUP.
Inductive pin_Value : Type := HIGH | LOW | ERROR.
Inductive int_Mode : Type := CHANGE | RISING | FALLING.

Definition pin_Mode_code (m : pin_Mode) : Z :=
  match m with INPUT => 1 | OUTPUT => 0 | INPUT_PULLUP => 3 end.
Definition pin_Value_code (v : pin_Value) : Z :=
  match v with HIGH => 1 | LOW => 0 | ERROR => 255 end.
Definition int_Mode_code (m : int_Mode) : Z :=
  match m with CHANGE => 2 | RISING => 1 | FALLING => 0 end.

Record IntEvent : Type := mkIntEvent { ev_pin : Z; ev_level : bool }.

(** ** Register map (the private [constexpr] members) *)

Definition IODIRA : Z := 0x00.
Definition IODIRB : Z := 0x01.
Definition GPPUA : Z := 0x0C.
Definition GPPUB : Z := 0x0D.
Definition GPIOA : Z := 0x12.
Definition GPIOB : Z := 0x13.
Definition OLATA : Z := 0x14.
Definition OLATB : Z := 0x15.
Definition GPINTENA : Z := 0x04.
Definition GPINTENB : Z := 0x05.
Definition IOCON : Z := 0x0A.
Definition DEFVALA : Z := 0x06.
Definition DEFVALB : Z := 0x07.
Definition INTFA : Z := 0x0E.
Definition INTFB : Z := 0x0F.
Definition INTCAPA : Z := 0x10.
Definition INTCAPB : Z := 0x11.
Definition INTCONA : Z := 0x08.
Definition INTCONB : Z := 0x09.

(** ** The world outside the driver *)

(** A system call issued by the driver, with the value it returned. *)
Inductive syscall : Type :=
| sys_open (path : string) (result : Z)
| sys_ioctl (fd : Z) (address : Z) (result : Z)
| sys_write (fd : Z) (data : list Z) (result : Z)
| sys_read (fd : Z) (count : Z) (result : Z).

Record World : Type := mkWorld {
  open_ret : Z;            (* what [open] answers: a descriptor, or negative *)
  ioctl_ret : Z;           (* what [ioctl(fd, I2C_SLAVE, _)] answers *)
  faults : list bool;      (* one entry per transfer on a valid descriptor,
                              [true] when the transfer fails; none left:
                              the transfer succeeds *)
  regs : Z -> Z;           (* the chip's register file *)
  reg_ptr : Z;             (* the chip's register address pointer *)
  trace : list syscall;    (* system calls issued so far, oldest first *)
  cerr : list string       (* lines printed on std::cerr, oldest first *)
}.

Definition log_call (c : syscall) (w : World) : World :=
  mkWorld (open_ret w) (ioctl_ret w) (faults w) (regs w) (reg_ptr w)
          (trace w ++ [c]) (cerr w).

Definition log_cerr (line : string) (w : World) : World :=
  mkWorld (open_ret w) (ioctl_ret w) (faults w) (regs w) (reg_ptr w)
          (trace w) (cerr w ++ [line]).

Definition next_transfer (w : World) : World :=
  mkWorld (open_ret w) (ioctl_ret w) (tl (faults w)) (regs w) (reg_ptr w)
          (trace w) (cerr w).

Definition set_ptr (reg : Z) (w : World) : World :=
  mkWorld (open_ret w) (ioctl_ret w) (faults w) (regs w) reg
          (trace w) (cerr w).

Definition store (reg value : Z) (w : World) : World :=
  mkWorld (open_ret w) (ioctl_ret w) (faults w)
          (fun r => if r =? reg then value else regs w r) reg
          (trace w) (cerr w).

(** ** State and exceptions *)

Definition M (A : Type) : Type := World -> A * World.

Definition ret {A : Type} (a : A) : M A := fun w => (a, w).

Definition bind {A B : Type} (m : M A) (k : A -> M B) : M B :=
  fun w => let (a, w') := m w in k a w'.

(** The result of a [try] block: it ran to its end, or it threw a
    [std::runtime_error] carrying [what]. *)
Inductive outcome (A : Type) : Type :=
| Done (a : A)
| Thrown (what : string).
Arguments Done {A} a.
Arguments Thrown {A} what.

Definition throw {A : Type} (what : string) : M (outcome A) := ret (Thrown what).

Definition bindX {A B : Type} (m : M (outcome A)) (k : A -> M (outcome B))
  : M (outcome B) :=
  bind m (fun o => match o with Done a => k a | Thrown e => ret (Thrown e) end).

Definition lift {A : Type} (m : M A) : M (outcome A) :=
  bind m (fun a => ret (Done a)).

Definition try_catch {A : Type} (body : M (outcome A)) (handler : string -> M A)
  : M A :=
  bind body (fun o => match o with Done a => ret a | Thrown e => handler e end).

Declare Scope drv_scope.
Delimit Scope drv_scope with drv.
Notation "x <- m ;; k" := (bind m (fun x => k))
  (at level 100, m at next level, right associativity) : drv_scope.
Notation "m ;; k" := (bind m (fun _ => k))
  (at level 100, right associativity) : drv_scope.
Notation "x <-! m ;; k" := (bindX m (fun x => k))
  (at level 100, m at next level, right associativity) : drv_scope.
Notation "m ;;! k" := (bindX m (fun _ => k))
  (at level 100, right associativity) : drv_scope.
Local Open Scope drv_scope.

(** [std::cerr << ... << std::endl]. *)
Definition cerr_line (line : string) : M unit := fun w => (tt, log_cerr line w).

(** ** System calls on the i2c-dev node *)

Definition open_ (path : string) : M Z :=
  fun w => (open_ret w, log_call (sys_open path (open_ret w)) w).

Definition ioctl_I2C_SLAVE (fd address : Z) : M Z :=
  fun w => let r := if fd <? 0 then -1 else ioctl_ret w in
           (r, log_call (sys_ioctl fd address r) w).

(** [write(fd, data, n)]: refused on a negative descriptor; otherwise one
    transfer.  One byte selects a register, two bytes store the second in the
    register named by the first.  The driver sends nothing longer. *)
Definition write_ (fd : Z) (data : list Z) : M Z :=
  fun w =>
    if fd <? 0 then (-1, log_call (sys_write fd data (-1)) w)
    else if hd false (faults w)
    then (-1, log_call (sys_write fd data (-1)) (next_transfer w))
    else match data with
         | [reg] =>
             (1, log_call (sys_write fd data 1) (set_ptr reg (next_transfer w)))
         | [reg; value] =>
             (2, log_call (sys_write fd data 2) (store reg value (next_transfer w)))
         | _ => (-1, log_call (sys_write fd data (-1)) (next_transfer w))
         end.

(** [read(fd, &value, 1)]: the byte of the selected register, with the
    count 1; on failure no byte is delivered. *)
Definition read_ (fd : Z) : M (Z * option Z) :=
  fun w =>
    if fd <? 0 then ((-1, None), log_call (sys_read fd 1 (-1)) w)
    else if hd false (faults w)
    then ((-1, None), log_call (sys_read fd 1 (-1)) (next_transfer w))
    else ((1, Some (u8 (regs w (reg_ptr w)))),
          log_call (sys_read fd 1 1) (next_transfer w)).

(** ** The class *)

Record MCP23017 : Type := mkMCP23017 { fd : Z }.

Section Methods.

Variable self : MCP23017.

Definition writeReg (reg value : Z) : M unit :=
  let data := [reg; value] in
  try_catch
    (n <-! lift (write_ (fd self) data) ;;
     if negb (n =? 2) then throw "I2C write failed" else ret (Done tt))
    (fun what => cerr_line ("Error: " ++ what)%string).

(** The [try] block of [readReg]; [value] is the local it may assign. *)
Definition readReg_try (reg value : Z) : M (outcome Z) :=
  n <-! lift (write_ (fd self) [reg]) ;;
  if negb (n =? 1) then throw "I2C write failed" else
  r <-! lift (read_ (fd self)) ;;
  let value := match snd r with Some byte => byte | None => value end in
  if negb (fst r =? 1) then throw "I2C write failed" else ret (Done value).

Definition readReg (reg : Z) : M Z :=
  let value := 0 in
  try_catch
    (readReg_try reg value)
    (fun what => cerr_line ("Error: " ++ what)%string ;; ret value).

Definition pinCheck (pin : Z) : M bool :=
  if (pin <? 0) || (pin >? 15)
  then cerr_line "Valid Pinnums 0-15" ;; ret false
  else ret true.

Definition readIntFlags (clear : bool) : M Z :=
  a <- readReg INTFA ;;
  b <- readReg INTFB ;;
  let flags := u16 (Z.lor (Z.shiftl (u16 b) 8) a) in
  (if clear then writeReg INTFA 0x00 ;; writeReg INTFB 0x00 else ret tt) ;;
  ret flags.

(** [void pinMode(uint8_t pin, pin_Mode mode)].  The two [switch]
    statements range over the three enumerators; their [default] branch is
    not reached by a value of [pin_Mode]. *)
Definition pinMode (pin : Z) (mode : pin_Mode) : M unit :=
  ok <- pinCheck pin ;;
  if negb ok then ret tt else
  let regDir := if pin <? 8 then IODIRA else IODIRB in
  let regPup := if pin <? 8 then GPPUA else GPPUB in
  let bit := Z.rem pin 8 in
  dirVal <- readReg regDir ;;
  pupVal <- readReg regPup ;;
  let dirVal := match mode with
                | OUTPUT => and_not_bit dirVal bit
                | INPUT | INPUT_PULLUP => or_bit dirVal bit
                end in
  let pupVal := match mode with
                | INPUT_PULLUP => or_bit pupVal bit
                | INPUT | OUTPUT => and_not_bit pupVal bit
                end in
  writeReg regDir dirVal ;;
  writeReg regPup pupVal.

(** [void pinWrite(uint8_t pin, pin_Value value)]. *)
Definition pinWrite (pin : Z) (value : pin_Value) : M unit :=
  ok <- pinCheck pin ;;
  if negb ok then ret tt else
  let reg := if pin <? 8 then OLATA else OLATB in
  let bit := Z.rem pin 8 in
  val <- readReg reg ;;
  match value with
  | HIGH => writeReg reg (or_bit val bit)
  | LOW => writeReg reg (and_not_bit val bit)
  | ERROR => cerr_line "Invalid input: pinWrite(pin, HIGH/LOW)"
  end.

(** [pin_Value pinRead(uint8_t pin)]. *)
Definition pinRead (pin : Z) : M pin_Value :=
  ok <- pinCheck pin ;;
  if negb ok then ret ERROR else
  let reg := if pin <? 8 then GPIOA else GPIOB in
  let bit := Z.rem pin 8 in
  val <- readReg reg ;;
  ret (if negb (Z.land (Z.shiftr val bit) 1 =? 0) then HIGH else LOW).

(** [void enableInt(uint8_t pin, bool enable = true)]. *)
Definition enableInt (pin : Z) (enable : bool) : M unit :=
  ok <- pinCheck pin ;;
  if negb ok then ret tt else
  let regGPINTEN := if pin <? 8 then GPINTENA else GPINTENB in
  let bit := Z.rem pin 8 in
  regVal <- readReg regGPINTEN ;;
  let regVal := if enable then or_bit regVal bit else and_not_bit regVal bit in
  writeReg regGPINTEN regVal.

(** [void intOutputMode(pin_Value w_INTPOL, bool w_ODR = false,
    bool w_MIRROR = false)]. *)
Definition intOutputMode (w_INTPOL : pin_Value) (w_ODR w_MIRROR : bool) : M unit :=
  val <- readReg IOCON ;;
  let val := if w_ODR then or_bit val 2 else and_not_bit val 2 in
  let val := if negb w_ODR
             then match w_INTPOL with
                  | HIGH => or_bit val 1
                  | _ => and_not_bit val 1
                  end
             else and_not_bit val 1 in
  let val := if w_MIRROR then or_bit val 6 else and_not_bit val 6 in
  writeReg IOCON val.

(** [void intTriggerMode(uint8_t pin, int_Mode mode)].  As in [pinMode],
    the [default] branch of the [switch] is not reached by a value of
    [int_Mode]. *)
Definition intTriggerMode (pin : Z) (mode : int_Mode) : M unit :=
  ok <- pinCheck pin ;;
  if negb ok then ret tt else
  let regDEFVAL := if pin <? 8 then DEFVALA else DEFVALB in
  let regINTCON := if pin <? 8 then INTCONA else INTCONB in
  let bit := Z.rem pin 8 in
  intConVal <- readReg regINTCON ;;
  defVal <- readReg regDEFVAL ;;
  let '(intConVal, defVal) :=
    match mode with
    | CHANGE => (and_not_bit intConVal bit, defVal)
    | RISING => (or_bit intConVal bit, or_bit defVal bit)
    | FALLING => (or_bit intConVal bit, and_not_bit defVal bit)
    end in
  writeReg regINTCON intConVal ;;
  writeReg regDEFVAL defVal.

(** [uint16_t getInterruptFlags(bool clear = false)]. *)
Definition getInterruptFlags (clear : bool) : M Z := readIntFlags clear.

(** The loop [for (pin = from; pin < 16; pin++) if (flags & (1 << pin))
    pins.push_back(pin)], with [n] iterations left. *)
Fixpoint flagged_pins (flags : Z) (n : nat) (pin : Z) : list Z :=
  match n with
  | O => []
  | S n' => (if mask_test flags pin then [pin] else [])
              ++ flagged_pins flags n' (pin + 1)
  end.

(** [std::vector<uint8_t> getInterruptPins(bool clear = false)]. *)
Definition getInterruptPins (clear : bool) : M (list Z) :=
  flags <- readIntFlags clear ;;
  ret (flagged_pins flags 16 0).

(** [bool isInterruptOnPin(uint8_t pin, bool clear = false)]. *)
Definition isInterruptOnPin (pin : Z) (clear : bool) : M bool :=
  ok <- pinCheck pin ;;
  if negb ok then ret false else
  flags <- readIntFlags clear ;;
  ret (mask_test flags pin).

(** [void clearIntCapture(uint16_t pin)]. *)
Definition clearIntCapture (pin : Z) : M unit :=
  if pin <? 8 then readReg GPIOA ;; ret tt else readReg GPIOB ;; ret tt.

(** The loop of [getIntCapture] from [pin] on, with [n] iterations left;
    [events] is the vector filled so far. *)
Fixpoint capture_loop (flags captured : Z) (clear : bool)
         (n : nat) (pin : Z) (events : list IntEvent) : M (list IntEvent) :=
  match n with
  | O => ret events
  | S n' =>
      if mask_test flags pin then
        let level := mask_test captured pin in
        let events := events ++ [mkIntEvent pin level] in
        (if clear then clearIntCapture pin else ret tt) ;;
        capture_loop flags captured clear n' (pin + 1) events
      else capture_loop flags captured clear n' (pin + 1) events
  end.

(** [std::vector<IntEvent> getIntCapture(bool clear = false)]. *)
Definition getIntCapture (clear : bool) : M (list IntEvent) :=
  a <- readReg INTFA ;;
  b <- readReg INTFB ;;
  let flags := u16 (Z.lor (Z.shiftl (u16 b) 8) a) in
  capA <- readReg INTCAPA ;;
  capB <- readReg INTCAPB ;;
  let captured := u16 (Z.lor (Z.shiftl (u16 capB) 8) capA) in
  capture_loop flags captured clear 16 0 [].

(** [void clearInterrupts()]. *)
Definition clearInterrupts : M unit :=
  readReg GPIOA ;;
  readReg GPIOB ;;
  writeReg INTFA 0x00 ;;
  writeReg INTFB 0x00.

(** [void enableSlewRateControl(bool enabled)]. *)
Definition enableSlewRateControl (enabled : bool) : M unit :=
  iocon <- readReg IOCON ;;
  let iocon := if enabled then or_bit iocon 4 else and_not_bit iocon 4 in
  writeReg IOCON iocon.

(** [void setSequentialOperation(bool enabled)]. *)
Definition setSequentialOperation (enabled : bool) : M unit :=
  iocon <- readReg IOCON ;;
  let iocon := if enabled then and_not_bit iocon 5 else or_bit iocon 5 in
  writeReg IOCON iocon.

End Methods.

(** The constructor [MCP23017(uint8_t address = 0x20,
    const std::string &i2cDev = "/dev/i2c-1")]. *)
Definition MCP23017_ctor (address : Z) (i2cDev : string) : M MCP23017 :=
  fd <- open_ i2cDev ;;
  let self := mkMCP23017 fd in
  try_catch
    (if fd <? 0 then throw "I2C write failed" else
     r <-! lift (ioctl_I2C_SLAVE fd address) ;;
     if r <? 0 then throw "I2C ioctl failed" else
     lift (writeReg self IODIRA 0xFF) ;;!
     lift (writeReg self IODIRB 0xFF))
    (fun what => cerr_line ("Error: " ++ what)%string) ;;
  ret self.

(** The 16-bit field built from two bytes, high byte first:
    [(uint16_t(hi) << 8) | lo]. *)
Definition assemble16 (hi lo : Z) : Z := u16 (Z.lor (Z.shiftl (u16 hi) 8) lo).

(** ** Vocabulary of the statements *)

(** The transport works: the descriptor is valid and no transfer to come
    fails. *)
Definition healthy (self : MCP23017) (w : World) : bool :=
  (0 <=? fd self) && forallb negb (faults w).

(** The read of [reg] fails in [w]: the [try] block of [readReg] throws. *)
Definition read_throws (self : MCP23017) (reg : Z) (w : World) : bool :=
  match fst (readReg_try self reg 0 w) with
  | Thrown _ => true
  | Done _ => false
  end.

(** A call that stores a byte in a register: a two-byte [write]. *)
Definition is_store (c : syscall) : bool :=
  match c with
  | sys_write _ [_; _] _ => true
  | _ => false
  end.

(** A call that reaches for the bus: [write] or [read]. *)
Definition is_transfer (c : syscall) : bool :=
  match c with
  | sys_write _ _ _ | sys_read _ _ _ => true
  | _ => false
  end.

(** The [n] pins from [pin] on, and the pins [0 .. 15], in the order the
    loops visit them. *)
Fixpoint pin_range (n : nat) (pin : Z) : list Z :=
  match n with
  | O => []
  | S n' => pin :: pin_range n' (pin + 1)
  end.

Definition all_pins : list Z := pin_range 16 0.

(** From [w] to [w'] the register file is the same and every call issued in
    between satisfies [P]. *)
Definition quiet (P : syscall -> bool) (w w' : World) : Prop :=
  regs w' = regs w
  /\ exists calls, trace w' = trace w ++ calls /\ forallb P calls = true.

(** From [w] to [w'] no byte was stored: no call issued in between is a
    two-byte [write]. *)
Definition reads_only : World -> World -> Prop :=
  quiet (fun c => negb (is_store c)).

(** A computation relates the world it starts in to the world it ends in. *)
Definition respects (R : World -> World -> Prop) {A : Type} (m : M A) : Prop :=
  forall w, R w (snd (m w)).

(** Bank selection as every method writes it: [(pin < 8) ? regA : regB]. *)
Definition bank (pin regA regB : Z) : Z := if pin <? 8 then regA else regB.

(** A public method together with its arguments. *)
Inductive call : Type :=
| call_pinMode (pin : Z) (mode : pin_Mode)
| call_pinWrite (pin : Z) (value : pin_Value)
| call_pinRead (pin : Z)
| call_enableInt (pin : Z) (enable : bool)
| call_intOutputMode (w_INTPOL : pin_Value) (w_ODR w_MIRROR : bool)
| call_intTriggerMode (pin : Z) (mode : int_Mode)
| call_getInterruptFlags (clear : bool)
| call_getInterruptPins (clear : bool)
| call_isInterruptOnPin (pin : Z) (clear : bool)
| call_getIntCapture (clear : bool)
| call_clearIntCapture (pin : Z)
| call_clearInterrupts
| call_enableSlewRateControl (enabled : bool)
| call_setSequentialOperation (enabled : bool).

(** Running a call for its effect on the world. *)
Definition perform (self : MCP23017) (c : call) : M unit :=
  match c with
  | call_pinMode pin mode => pinMode self pin mode
  | call_pinWrite pin value => pinWrite self pin value
  | call_pinRead pin => pinRead self pin ;; ret tt
  | call_enableInt pin enable => enableInt self pin enable
  | call_intOutputMode p o m => intOutputMode self p o m
  | call_intTriggerMode pin mode => intTriggerMode self pin mode
  | call_getInterruptFlags clear => getInterruptFlags self clear ;; ret tt
  | call_getInterruptPins clear => getInterruptPins self clear ;; ret tt
  | call_isInterruptOnPin pin clear => isInterruptOnPin self pin clear ;; ret tt
  | call_getIntCapture clear => getIntCapture self clear ;; ret tt
  | call_clearIntCapture pin => clearIntCapture self pin
  | call_clearInterrupts => clearInterrupts self
  | call_enableSlewRateControl enabled => enableSlewRateControl self enabled
  | call_setSequentialOperation enabled => setSequentialOperation self enabled
  end.

(** The pin argument of a call is one [pinCheck] accepts (calls without a
    checked pin argument qualify). *)
Definition pin_accepted (c : call) : bool :=
  match c with
  | call_pinMode pin _ | call_pinWrite pin _ | call_pinRead pin
  | call_enableInt pin _ | call_intTriggerMode pin _
  | call_isInterruptOnPin pin _ => (0 <=? pin) && (pin <=? 15)
  | _ => true
  end.

(** The caller of [op] can tell a rejected pin from an accepted one by
    looking at what [op] returned. *)
Definition rejection_inspectable {A : Type} (op : Z -> M A) (w : World) : Prop :=
  exists rejected : A -> bool,
    forall pin, 0 <= pin < 256 ->
      rejected (fst (op pin w)) = negb ((0 <=? pin) && (pin <=? 15)).

(** A [write] the system refused or the bus failed. *)
Definition is_failed_write (c : syscall) : bool :=
  match c with
  | sys_write _ _ r => r =? -1
  | _ => false
  end.

(** From [w] to [w'] nothing got through: every call issued in between is a
    [write] answered [-1], and the register file is the same. *)
Definition nothing_got_through : World -> World -> Prop := quiet is_failed_write.

(** From [w] to [w'] nothing got through and every refusal was reported:
    each call issued in between is a [write] answered [-1], the register file
    is the same, and the lines printed meanwhile hold the line
    ["Error: I2C write failed"] once for each of these calls. *)
Definition refused_and_logged (w w' : World) : Prop :=
  regs w' = regs w
  /\ exists calls lines,
       trace w' = trace w ++ calls
       /\ cerr w' = cerr w ++ lines
       /\ forallb is_failed_write calls = true
       /\ count_occ string_dec lines "Error: I2C write failed"
          = List.length calls.

(** From [w] to [w'] the log of calls has only grown. *)
Definition trace_grows (w w' : World) : Prop :=
  exists calls, trace w' = trace w ++ calls.

(** ** Sample worlds *)

(** A chip whose registers hold [0xF0] in the output latch of bank A, one
    raised flag for pin 0 and for pin 10, and zero elsewhere. *)
Definition sample_regs : Z -> Z :=
  fun r => if r =? OLATA then 0xF0
           else if r =? INTFA then 0x01
           else if r =? INTFB then 0x04
           else if r =? INTCAPB then 0x04
           else 0.

(** A working bus: [open] answers descriptor 3, nothing fails. *)
Definition sample_world : World := mkWorld 3 0 [] sample_regs 0 [] [].

(** The same chip behind a bus whose next transfer fails. *)
Definition flaky_world : World := mkWorld 3 0 [true] sample_regs 0 [] [].

(** The same chip when [open] fails. *)
Definition unopened_world : World := mkWorld (-1) 0 [] sample_regs 0 [] [].

(** The same chip when the address selection fails. *)
Definition unselected_world : World := mkWorld 3 (-1) [] sample_regs 0 [] [].

Definition sample_dev : MCP23017 := mkMCP23017 3.

(** ** Vocabulary for sequences of calls *)

(** A register file with one register replaced. *)
Definition upd (reg value : Z) (rf : Z -> Z) : Z -> Z :=
  fun r => if r =? reg then value else rf r.

(** The shape shared by the single-register methods: read [reg], write back
    [f] of the byte read. *)
Definition rmw (self : MCP23017) (reg : Z) (f : Z -> Z) : M unit :=
  val <- readReg self reg ;; writeReg self reg (f val).

(** The shape shared by the two-register methods: read [r1], read [r2],
    write back [f1] of the first byte to [r1], then [f2] of the second to
    [r2]. *)
Definition rmw2 (self : MCP23017) (r1 r2 : Z) (f1 f2 : Z -> Z) : M unit :=
  a <- readReg self r1 ;;
  b <- readReg self r2 ;;
  writeReg self r1 (f1 a) ;;
  writeReg self r2 (f2 b).

(** A [write] or a [read] on descriptor [d]. *)
Definition on_descriptor (d : Z) (c : syscall) : bool :=
  match c with
  | sys_write f _ _ | sys_read f _ _ => f =? d
  | _ => false
  end.

(** From [w] to [w'] every call issued satisfies [P]. *)
Definition only_calls (P : syscall -> bool) (w w' : World) : Prop :=
  exists calls, trace w' = trace w ++ calls /\ forallb P calls = true.

(** On a working bus the computation prints nothing and leaves the bus
    working. *)
Definition silent (self : MCP23017) (w w' : World) : Prop :=
  healthy self w = true -> healthy self w' = true /\ cerr w' = cerr w.

(** The arguments of a call are ones the method accepts: the pin passes
    [pinCheck] and the value written is [HIGH] or [LOW]. *)
Definition arguments_accepted (c : call) : bool :=
  pin_accepted c
  && match c with
     | call_pinWrite _ ERROR => false
     | _ => true
     end.

(** ** Mode arguments as the integers they are *)

(** [pinMode] on the integer value of its [mode] argument.  A [pin_Mode] can
    hold a value that is none of its enumerators, such as
    [static_cast<pin_Mode>(2)]; the first [switch] then takes its [default]
    branch, which prints and returns.  The second [switch] has no [default]
    and leaves [pupVal] alone on such a value. *)
Definition pinMode_raw (self : MCP23017) (pin mode : Z) : M unit :=
  ok <- pinCheck pin ;;
  if negb ok then ret tt else
  let regDir := if pin <? 8 then IODIRA else IODIRB in
  let regPup := if pin <? 8 then GPPUA else GPPUB in
  let bit := Z.rem pin 8 in
  dirVal <- readReg self regDir ;;
  pupVal <- readReg self regPup ;;
  let second_switch_and_writes (dirVal : Z) : M unit :=
    let pupVal :=
      if mode =? pin_Mode_code INPUT_PULLUP then or_bit pupVal bit
      else if (mode =? pin_Mode_code INPUT) || (mode =? pin_Mode_code OUTPUT)
           then and_not_bit pupVal bit
           else pupVal in
    writeReg self regDir dirVal ;;
    writeReg self regPup pupVal in
  if mode =? pin_Mode_code OUTPUT
  then second_switch_and_writes (and_not_bit dirVal bit)
  else if (mode =? pin_Mode_code INPUT) || (mode =? pin_Mode_code INPUT_PULLUP)
       then second_switch_and_writes (or_bit dirVal bit)
       else cerr_line "Invalid input: pinMode(pin, INPUT/OUTPUT/INPUT_PULLUP)".

(** [intTriggerMode] on the integer value of its [mode] argument, with the
    [default] branch of its [switch]. *)
Definition intTriggerMode_raw (self : MCP23017) (pin mode : Z) : M unit :=
  ok <- pinCheck pin ;;
  if negb ok then ret tt else
  let regDEFVAL := if pin <? 8 then DEFVALA else DEFVALB in
  let regINTCON := if pin <? 8 then INTCONA else INTCONB in
  let bit := Z.rem pin 8 in
  intConVal <- readReg self regINTCON ;;
  defVal <- readReg self regDEFVAL ;;
  let writes (intConVal defVal : Z) : M unit :=
    writeReg self regINTCON intConVal ;;
    writeReg self regDEFVAL defVal in
  if mode =? int_Mode_code CHANGE
  then writes (and_not_bit intConVal bit) defVal
  else if mode =? int_Mode_code RISING
       then writes (or_bit intConVal bit) (or_bit defVal bit)
       else if mode =? int_Mode_code FALLING
            then writes (or_bit intConVal bit) (and_not_bit defVal bit)
            else cerr_line
                   "Invalid input: pinInterrupt(pin, CHANGE/RISING/FALLING)".

(** ** The example program [highlow.cpp] *)

Definition highlowPin : Z := 1.

(** The global [MCP23017 mcp;], built with the default arguments, followed by
    [main]: its [try] block holds the three calls, none of which throws, and
    it returns 0.  The destructor, which runs after [main] has returned and
    only closes the descriptor, is not part of it. *)
Definition highlow_main : M Z :=
  mcp <- MCP23017_ctor 0x20 "/dev/i2c-1" ;;
  try_catch
    (lift (pinMode mcp highlowPin OUTPUT) ;;!
     lift (pinWrite mcp highlowPin HIGH) ;;!
     lift (pinWrite mcp highlowPin LOW))
    (fun what => cerr_line what) ;;
  ret 0.

(** ** Bit-level facts *)

Lemma u8_range (x : Z) : 0 <= u8 x < 256.
Proof. unfold u8. apply Z.mod_pos_bound. lia. Qed.

Lemma u8_small (x : Z) : 0 <= x < 256 -> u8 x = x.
Proof. intros H. unfold u8. apply Z.mod_small. exact H. Qed.

Lemma u16_small (x : Z) : 0 <= x < 65536 -> u16 x = x.
Proof. intros H. unfold u16. apply Z.mod_small. exact H. Qed.

Lemma u8_bits (x i : Z) :
  0 <= i -> Z.testbit (u8 x) i = (i <? 8) && Z.testbit x i.
Proof.
  intros Hi. unfold u8. change 256 with (2 ^ 8).
  destruct (Z.ltb_spec i 8) as [Hlt | Hge]; cbn [andb].
  - apply Z.mod_pow2_bits_low. lia.
  - apply Z.mod_pow2_bits_high. lia.
Qed.

Lemma byte_high_bits (v i : Z) : 0 <= v < 256 -> 8 <= i -> Z.testbit v i = false.
Proof.
  intros Hv Hi. rewrite <- (u8_small v Hv), u8_bits by lia.
  destruct (Z.ltb_spec i 8); [lia | reflexivity].
Qed.

Lemma one_shifted_bits (bit i : Z) :
  0 <= bit -> 0 <= i -> Z.testbit (Z.shiftl 1 bit) i = (i =? bit).
Proof.
  intros Hb Hi. rewrite Z.shiftl_spec by exact Hi.
  destruct (Z.eqb_spec i bit) as [-> | Hne].
  - rewrite Z.sub_diag. reflexivity.
  - destruct (Z.lt_ge_cases i bit) as [Hlt | Hge].
    + apply Z.testbit_neg_r. lia.
    + apply Z.bits_above_log2; cbn; lia.
Qed.

Lemma or_bit_bits (v bit i : Z) :
  0 <= bit -> 0 <= i ->
  Z.testbit (or_bit v bit) i = (i <? 8) && (Z.testbit v i || (i =? bit)).
Proof.
  intros Hb Hi. unfold or_bit.
  rewrite u8_bits, Z.lor_spec, one_shifted_bits by assumption. reflexivity.
Qed.

Lemma and_not_bit_bits (v bit i : Z) :
  0 <= bit -> 0 <= i ->
  Z.testbit (and_not_bit v bit) i = (i <? 8) && (Z.testbit v i && negb (i =? bit)).
Proof.
  intros Hb Hi. unfold and_not_bit.
  rewrite u8_bits, Z.land_spec, Z.lnot_spec, one_shifted_bits by assumption.
  reflexivity.
Qed.

Lemma bit_ops_range (v bit : Z) :
  0 <= or_bit v bit < 256 /\ 0 <= and_not_bit v bit < 256.
Proof. split; apply u8_range. Qed.

(** On a byte, setting one of its eight bits leaves the other bits as they
    were and raises that one. *)
Lemma or_bit_byte (v bit i : Z) :
  0 <= v < 256 -> 0 <= bit < 8 -> 0 <= i ->
  Z.testbit (or_bit v bit) i = if i =? bit then true else Z.testbit v i.
Proof.
  intros Hv Hb Hi. rewrite or_bit_bits by lia.
  destruct (Z.eqb_spec i bit) as [-> | Hne].
  - destruct (Z.ltb_spec bit 8); [ | lia]. now rewrite orb_true_r.
  - rewrite orb_false_r. destruct (Z.ltb_spec i 8); [reflexivity | ].
    symmetry. now apply byte_high_bits.
Qed.

Lemma and_not_bit_byte (v bit i : Z) :
  0 <= v < 256 -> 0 <= bit < 8 -> 0 <= i ->
  Z.testbit (and_not_bit v bit) i = if i =? bit then false else Z.testbit v i.
Proof.
  intros Hv Hb Hi. rewrite and_not_bit_bits by lia.
  destruct (Z.eqb_spec i bit) as [-> | Hne]; cbn [negb].
  - now rewrite andb_false_r, andb_false_r.
  - rewrite andb_true_r. destruct (Z.ltb_spec i 8); [reflexivity | ].
    symmetry. now apply byte_high_bits.
Qed.

(** Read a bit through a chain of single-bit updates of a byte. *)
Ltac byte_bits :=
  repeat first
    [ rewrite or_bit_byte by (try apply bit_ops_range; lia)
    | rewrite and_not_bit_byte by (try apply bit_ops_range; lia) ].

Lemma mask_test_bit (x pin : Z) : 0 <= pin -> mask_test x pin = Z.testbit x pin.
Proof.
  intros Hp. unfold mask_test.
  assert (E : Z.land x (Z.shiftl 1 pin)
              = if Z.testbit x pin then Z.shiftl 1 pin else 0).
  { apply Z.bits_inj'. intros i Hi.
    rewrite Z.land_spec, one_shifted_bits by assumption.
    destruct (Z.eqb_spec i pin) as [-> | Hne].
    - destruct (Z.testbit x pin); cbn [andb].
      + rewrite one_shifted_bits, Z.eqb_refl by assumption. reflexivity.
      + now rewrite Z.bits_0.
    - rewrite andb_false_r. destruct (Z.testbit x pin).
      + rewrite one_shifted_bits by assumption.
        destruct (Z.eqb_spec i pin); [contradiction | reflexivity].
      + now rewrite Z.bits_0. }
  rewrite E. destruct (Z.testbit x pin); [ | reflexivity].
  rewrite Z.shiftl_1_l.
  destruct (Z.eqb_spec (2 ^ pin) 0) as [H0 | _]; [ | reflexivity].
  pose proof (Z.pow_pos_nonneg 2 pin). lia.
Qed.

Lemma assemble16_bits (hi lo i : Z) :
  0 <= hi < 256 -> 0 <= lo < 256 -> 0 <= i ->
  Z.testbit (assemble16 hi lo) i
  = if i <? 8 then Z.testbit lo i else Z.testbit hi (i - 8).
Proof.
  intros Hhi Hlo Hi. unfold assemble16.
  rewrite (u16_small hi) by lia.
  assert (B : 0 <= Z.lor (Z.shiftl hi 8) lo < 65536).
  { split.
    - apply Z.lor_nonneg. split; [apply Z.shiftl_nonneg | ]; lia.
    - destruct (Z.eq_dec (Z.lor (Z.shiftl hi 8) lo) 0) as [-> | Hne]; [lia | ].
      assert (0 <= Z.lor (Z.shiftl hi 8) lo).
      { apply Z.lor_nonneg. split; [apply Z.shiftl_nonneg | ]; lia. }
      change 65536 with (2 ^ 16). apply Z.log2_lt_pow2; [lia | ].
      rewrite Z.log2_lor by (try apply Z.shiftl_nonneg; lia).
      apply Z.max_lub_lt.
      + destruct (Z.eq_dec hi 0) as [-> | Hh]; [cbn; lia | ].
        rewrite Z.log2_shiftl by lia.
        assert (Z.log2 hi < 8) by (apply Z.log2_lt_pow2; cbn; lia). lia.
      + destruct (Z.eq_dec lo 0) as [-> | Hl]; [cbn; lia | ].
        assert (Z.log2 lo < 8) by (apply Z.log2_lt_pow2; cbn; lia). lia. }
  rewrite (u16_small _ B), Z.lor_spec, Z.shiftl_spec by exact Hi.
  destruct (Z.ltb_spec i 8) as [Hlt | Hge].
  - rewrite (Z.testbit_neg_r hi) by lia. reflexivity.
  - rewrite (byte_high_bits lo i) by lia. now rewrite orb_false_r.
Qed.

Lemma assemble16_value (hi lo : Z) :
  0 <= hi < 256 -> 0 <= lo < 256 -> assemble16 hi lo = hi * 256 + lo.
Proof.
  intros Hhi Hlo. apply Z.bits_inj'. intros i Hi.
  rewrite assemble16_bits by assumption.
  replace (hi * 256 + lo) with (lo + hi * 2 ^ 8) by (change (2 ^ 8) with 256; lia).
  destruct (Z.ltb_spec i 8) as [Hlt | Hge].
  - rewrite <- (Z.mod_pow2_bits_low (lo + hi * 2 ^ 8) 8 i) by lia.
    rewrite Z.mod_add by (cbn; lia). change (2 ^ 8) with 256.
    now rewrite Z.mod_small by lia.
  - replace i with ((i - 8) + 8) at 2 by lia.
    rewrite <- Z.div_pow2_bits by lia.
    rewrite Z.div_add by (cbn; lia). change (2 ^ 8) with 256.
    now rewrite Z.div_small by lia.
Qed.

(** ** The two register primitives *)

Ltac unfold_monad :=
  unfold try_catch, bindX, lift, throw, bind, ret, cerr_line in *.

(** Replace a run whose result is known and expose what follows it. *)
Ltac run_with E := rewrite E; cbv beta iota.

Ltac unfold_world :=
  unfold log_call, log_cerr, next_transfer, set_ptr, store in *.

(** Case analysis on the descriptor and on the outcomes of the next two
    transfers, which is all one register access depends on. *)
Ltac transfer_cases self w :=
  let fs := fresh "fs" in
  destruct w as [? ? fs ? ? ? ?];
  unfold readReg, readReg_try, writeReg, write_, read_;
  unfold_monad; unfold_world; cbn in *;
  let E := fresh "Efd" in
  destruct (fd self <? 0) eqn:E; cbn in *;
  [ | destruct fs as [ | [ | ] [ | [ | ] fs]]; cbn in * ].

Section Primitives.

Variable self : MCP23017.

(** [writeReg] always hands its two bytes to [write], whatever the state of
    the descriptor, and never touches the answers of the system. *)
Lemma writeReg_trace (reg value : Z) (w : World) :
  exists r, trace (snd (writeReg self reg value w))
            = trace w ++ [sys_write (fd self) [reg; value] r].
Proof. transfer_cases self w; eexists; reflexivity. Qed.

Lemma writeReg_healthy (reg value : Z) (w : World) :
  healthy self w = true ->
  writeReg self reg value w
  = (tt, log_call (sys_write (fd self) [reg; value] 2)
                  (store reg value (next_transfer w))).
Proof.
  unfold healthy. intros H. apply andb_prop in H as [Hfd Hf].
  apply Z.leb_le in Hfd.
  transfer_cases self w; try discriminate; try reflexivity.
  apply Z.ltb_lt in Efd. lia.
Qed.

Lemma writeReg_bad_fd (reg value : Z) (w : World) :
  fd self < 0 ->
  writeReg self reg value w
  = (tt, log_cerr "Error: I2C write failed"
                  (log_call (sys_write (fd self) [reg; value] (-1)) w)).
Proof.
  intros H. transfer_cases self w; try reflexivity;
    apply Z.ltb_ge in Efd; lia.
Qed.

(** [readReg] always begins by sending the register address; a [read]
    follows when that succeeded, and nothing else. *)
Lemma readReg_trace (reg : Z) (w : World) :
  exists r rest,
    trace (snd (readReg self reg w)) = trace w ++ sys_write (fd self) [reg] r :: rest
    /\ (rest = [] \/ exists r', rest = [sys_read (fd self) 1 r']).
Proof.
  transfer_cases self w; rewrite ?Efd; cbn; rewrite <- ?app_assoc; cbn;
    eexists _, _; (split; [reflexivity | ]); eauto.
Qed.

Lemma readReg_range (reg : Z) (w : World) : 0 <= fst (readReg self reg w) < 256.
Proof.
  transfer_cases self w; rewrite ?Efd; cbn; try lia; apply u8_range.
Qed.

(** Reading a register leaves the register file as it is. *)
Lemma readReg_regs (reg : Z) (w : World) : regs (snd (readReg self reg w)) = regs w.
Proof. transfer_cases self w; rewrite ?Efd; reflexivity. Qed.

Lemma readReg_healthy (reg : Z) (w : World) :
  healthy self w = true ->
  readReg self reg w
  = (u8 (regs w reg),
     log_call (sys_read (fd self) 1 1)
       (next_transfer
          (log_call (sys_write (fd self) [reg] 1)
             (set_ptr reg (next_transfer w))))).
Proof.
  unfold healthy. intros H. apply andb_prop in H as [Hfd Hf].
  apply Z.leb_le in Hfd.
  transfer_cases self w; rewrite ?Efd; cbn; try discriminate;
    try reflexivity.
  apply Z.ltb_lt in Efd. lia.
Qed.

Lemma readReg_bad_fd (reg : Z) (w : World) :
  fd self < 0 ->
  readReg self reg w
  = (0, log_cerr "Error: I2C write failed"
                 (log_call (sys_write (fd self) [reg] (-1)) w)).
Proof.
  intros H. transfer_cases self w; try reflexivity;
    apply Z.ltb_ge in Efd; lia.
Qed.

(** A read that throws is reported on [std::cerr] and yields the initial
    value of the local, zero. *)
Lemma readReg_thrown (reg : Z) (w : World) :
  read_throws self reg w = true ->
  fst (readReg self reg w) = 0
  /\ cerr (snd (readReg self reg w)) = cerr w ++ ["Error: I2C write failed"].
Proof.
  unfold read_throws.
  transfer_cases self w; rewrite ?Efd in *; cbn in *;
    try discriminate; auto.
Qed.

Lemma healthy_after_write (reg value : Z) (w : World) :
  healthy self w = true -> healthy self (snd (writeReg self reg value w)) = true.
Proof.
  intros H. rewrite writeReg_healthy by exact H. revert H.
  destruct w as [? ? fs ? ? ? ?]. unfold healthy. cbn.
  destruct (0 <=? fd self); [ | discriminate].
  destruct fs as [ | [ | ] fs]; cbn; auto; discriminate.
Qed.

Lemma healthy_after_read (reg : Z) (w : World) :
  healthy self w = true -> healthy self (snd (readReg self reg w)) = true.
Proof.
  intros H. rewrite readReg_healthy by exact H. revert H.
  destruct w as [? ? fs ? ? ? ?]. unfold healthy. cbn.
  destruct (0 <=? fd self); [ | discriminate].
  destruct fs as [ | [ | ] [ | [ | ] fs]]; cbn; auto; discriminate.
Qed.

End Primitives.

(** ** Pin validation *)

Lemma pinCheck_accepts (pin : Z) (w : World) :
  0 <= pin <= 15 -> pinCheck pin w = (true, w).
Proof.
  intros H. unfold pinCheck.
  destruct (Z.ltb_spec pin 0); [lia | ].
  destruct (Z.gtb_spec pin 15); [lia | reflexivity].
Qed.

Lemma pinCheck_rejects (pin : Z) (w : World) :
  pin < 0 \/ 15 < pin ->
  pinCheck pin w = (false, log_cerr "Valid Pinnums 0-15" w).
Proof.
  intros H. unfold pinCheck.
  destruct (Z.ltb_spec pin 0); [reflexivity | ].
  destruct (Z.gtb_spec pin 15); [reflexivity | lia].
Qed.

Lemma pin_bit (pin : Z) : 0 <= pin <= 15 -> Z.rem pin 8 = pin mod 8 /\ 0 <= pin mod 8 < 8.
Proof.
  intros H. split.
  - apply Z.rem_mod_nonneg; lia.
  - apply Z.mod_pos_bound. lia.
Qed.

Lemma fst_then_ret {A B : Type} (m : M A) (b : B) (w : World) :
  fst ((m ;; ret b) w) = b.
Proof. unfold bind, ret. destruct (m w). reflexivity. Qed.

(** ** Interrupt flags *)

(** C1. Whatever bytes [a] and [b] the reads of the bank A and bank B
    interrupt-flag registers return, [getInterruptFlags] returns the 16-bit
    value with [b] in the high byte and [a] in the low byte, with or without
    the clear: bit [i] of bank A is bit [i] of the result, bit [i] of bank B
    is bit [i + 8].  Bank A [0b00000001] with bank B [0x00] gives [0x0001];
    bank A [0x00] with bank B [0b00000001] gives [0x0100]. *)
Theorem getInterruptFlags_assembles
        (self : MCP23017) (clear : bool) (w w1 w2 : World) (a b : Z) :
  readReg self INTFA w = (a, w1) ->
  readReg self INTFB w1 = (b, w2) ->
  let flags := fst (getInterruptFlags self clear w) in
  flags = b * 256 + a
  /\ (forall i, 0 <= i < 8 ->
        Z.testbit flags i = Z.testbit a i
        /\ Z.testbit flags (i + 8) = Z.testbit b i)
  /\ (a = 0x01 -> b = 0x00 -> flags = 0x0001)
  /\ (a = 0x00 -> b = 0x01 -> flags = 0x0100).
Proof.
  intros Ha Hb.
  assert (Ra : 0 <= a < 256).
  { pose proof (readReg_range self INTFA w) as R. now rewrite Ha in R. }
  assert (Rb : 0 <= b < 256).
  { pose proof (readReg_range self INTFB w1) as R. now rewrite Hb in R. }
  assert (E : fst (getInterruptFlags self clear w) = assemble16 b a).
  { unfold getInterruptFlags, readIntFlags.
    unfold bind at 1. rewrite Ha. unfold bind at 1. rewrite Hb.
    apply fst_then_ret. }
  cbv zeta. rewrite E. repeat split.
  - now apply assemble16_value.
  - rewrite assemble16_bits by lia. destruct (Z.ltb_spec i 8); [reflexivity | lia].
  - rewrite assemble16_bits by lia. destruct (Z.ltb_spec (i + 8) 8); [lia | ].
    f_equal. lia.
  - intros -> ->. reflexivity.
  - intros -> ->. reflexivity.
Qed.

Lemma getInterruptFlags_assembles_witness :
  fst (getInterruptFlags sample_dev true sample_world) = 0x0401.
Proof.
  apply (getInterruptFlags_assembles sample_dev true sample_world
           (snd (readReg sample_dev INTFA sample_world))
           (snd (readReg sample_dev INTFB
                   (snd (readReg sample_dev INTFA sample_world))))
           0x01 0x04); reflexivity.
Defined.

(** C10. For a pin in [0, 15], [isInterruptOnPin(pin, true)] hands
    [{INTFA, 0x00}] and then [{INTFB, 0x00}] to [write] after the two flag
    reads, whatever the flags were and whatever the state of the bus; its
    result is bit [pin] of the field assembled from the two bytes read before
    those writes.  On a working bus both flag registers then hold zero. *)
Theorem isInterruptOnPin_clears_unconditionally
        (self : MCP23017) (pin : Z) (w : World) :
  0 <= pin <= 15 ->
  let a := fst (readReg self INTFA w) in
  let w1 := snd (readReg self INTFA w) in
  let b := fst (readReg self INTFB w1) in
  let w2 := snd (readReg self INTFB w1) in
  let w' := snd (isInterruptOnPin self pin true w) in
  fst (isInterruptOnPin self pin true w) = Z.testbit (b * 256 + a) pin
  /\ (exists r1 r2,
        trace w' = trace w2 ++ [sys_write (fd self) [INTFA; 0x00] r1;
                                sys_write (fd self) [INTFB; 0x00] r2])
  /\ (healthy self w = true -> regs w' INTFA = 0 /\ regs w' INTFB = 0).
Proof.
  intros Hp. cbv zeta.
  pose proof (readReg_range self INTFA w) as Ra.
  pose proof (healthy_after_read self INTFA w) as Hh1.
  destruct (readReg self INTFA w) as [a w1] eqn:Ea. cbn [fst snd].
  pose proof (readReg_range self INTFB w1) as Rb.
  pose proof (healthy_after_read self INTFB w1) as Hh2.
  destruct (readReg self INTFB w1) as [b w2] eqn:Eb.
  cbn [fst snd] in *.
  pose proof (writeReg_trace self INTFA 0 w2) as [r1 T1].
  pose proof (writeReg_healthy self INTFA 0 w2) as W1.
  pose proof (healthy_after_write self INTFA 0 w2) as Hh3.
  destruct (writeReg self INTFA 0 w2) as [[] w3] eqn:E3.
  pose proof (writeReg_trace self INTFB 0 w3) as [r2 T2].
  pose proof (writeReg_healthy self INTFB 0 w3) as W2.
  destruct (writeReg self INTFB 0 w3) as [[] w4] eqn:E4.
  cbn [fst snd] in *.
  assert (E : isInterruptOnPin self pin true w
              = (mask_test (assemble16 b a) pin, w4)).
  { unfold isInterruptOnPin, readIntFlags, bind.
    rewrite pinCheck_accepts by exact Hp. cbn [negb].
    run_with Ea. run_with Eb. run_with E3. run_with E4. reflexivity. }
  rewrite E. cbn [fst snd]. repeat split.
  - rewrite mask_test_bit by lia. now rewrite assemble16_value.
  - exists r1, r2. rewrite T2, T1, <- app_assoc. reflexivity.
  - injection (W2 (Hh3 (Hh2 (Hh1 H)))) as ->.
    injection (W1 (Hh2 (Hh1 H))) as ->. reflexivity.
  - injection (W2 (Hh3 (Hh2 (Hh1 H)))) as ->. reflexivity.
Qed.

Lemma isInterruptOnPin_clears_unconditionally_witness :
  fst (isInterruptOnPin sample_dev 5 true sample_world) = false
  /\ regs (snd (isInterruptOnPin sample_dev 5 true sample_world)) INTFA = 0
  /\ regs (snd (isInterruptOnPin sample_dev 5 true sample_world)) INTFB = 0.
Proof.
  destruct (isInterruptOnPin_clears_unconditionally sample_dev 5 sample_world)
    as (R & _ & Z0); [lia | ].
  split; [exact R | apply Z0; reflexivity].
Defined.

(** ** Interrupt output configuration *)

(** C6. Whatever polarity and mirror setting are requested, and whatever
    the control register held, the byte [intOutputMode] hands to [write] for
    the control register has its polarity bit (bit 1) cleared when open drain
    is requested, and equal to "the requested polarity is [HIGH]" otherwise;
    bit 2 is the open-drain request and bit 6 the mirror request.  On a
    working bus that byte is what the control register then holds. *)
Theorem intOutputMode_polarity
        (self : MCP23017) (w_INTPOL : pin_Value) (w_ODR w_MIRROR : bool)
        (w : World) :
  let w1 := snd (readReg self IOCON w) in
  let w' := snd (intOutputMode self w_INTPOL w_ODR w_MIRROR w) in
  exists val r,
    trace w' = trace w1 ++ [sys_write (fd self) [IOCON; val] r]
    /\ Z.testbit val 1
       = (if w_ODR then false
          else match w_INTPOL with HIGH => true | _ => false end)
    /\ Z.testbit val 2 = w_ODR
    /\ Z.testbit val 6 = w_MIRROR
    /\ (healthy self w = true -> regs w' IOCON = val).
Proof.
  cbv zeta.
  pose proof (readReg_range self IOCON w) as Rv.
  pose proof (healthy_after_read self IOCON w) as Hh.
  destruct (readReg self IOCON w) as [v w1] eqn:Ev. cbn [fst snd] in *.
  unfold intOutputMode, bind. run_with Ev.
  match goal with
  | |- context [writeReg self IOCON ?x w1] => set (val := x)
  end.
  destruct (writeReg_trace self IOCON val w1) as [r T].
  pose proof (writeReg_healthy self IOCON val w1) as W.
  exists val, r. split; [exact T | ].
  repeat split.
  - subst val. destruct w_ODR, w_MIRROR, w_INTPOL; cbn [negb];
      byte_bits; reflexivity.
  - subst val. destruct w_ODR, w_MIRROR, w_INTPOL; cbn [negb];
      byte_bits; reflexivity.
  - subst val. destruct w_ODR, w_MIRROR, w_INTPOL; cbn [negb];
      byte_bits; reflexivity.
  - intros H. rewrite (W (Hh H)). cbn. reflexivity.
Qed.

Lemma intOutputMode_polarity_witness :
  regs (snd (intOutputMode sample_dev HIGH true false sample_world)) IOCON = 0x04
  /\ regs (snd (intOutputMode sample_dev HIGH false true sample_world)) IOCON = 0x42.
Proof.
  split.
  - destruct (intOutputMode_polarity sample_dev HIGH true false sample_world)
      as (val & r & T & _ & _ & _ & F).
    rewrite (F eq_refl). vm_compute in T. now injection T as <- _.
  - destruct (intOutputMode_polarity sample_dev HIGH false true sample_world)
      as (val & r & T & _ & _ & _ & F).
    rewrite (F eq_refl). vm_compute in T. now injection T as <- _.
Defined.

(** ** Digital output *)

(** C5. For a pin in [0, 15] and a value [HIGH] or [LOW], [pinWrite]
    selects the output latch of the pin's bank ([OLATA] or [OLATB], never
    [GPIOA] or [GPIOB]) for its read, and the byte it then hands to [write]
    for that same latch has bit [pin mod 8] set for [HIGH] and cleared for
    [LOW], every other bit being the bit of the byte read.  On a working bus
    the byte read is the content of the latch, and afterwards every other
    register holds what it held before. *)
Theorem pinWrite_touches_one_latch_bit
        (self : MCP23017) (pin : Z) (value : pin_Value) (w : World) :
  0 <= pin <= 15 ->
  value <> ERROR ->
  let reg := bank pin OLATA OLATB in
  let val := fst (readReg self reg w) in
  let w1 := snd (readReg self reg w) in
  let w' := snd (pinWrite self pin value w) in
  (exists r rest,
     trace w1 = trace w ++ sys_write (fd self) [reg] r :: rest
     /\ (rest = [] \/ exists r', rest = [sys_read (fd self) 1 r']))
  /\ exists val' r,
       trace w' = trace w1 ++ [sys_write (fd self) [reg; val'] r]
       /\ Z.testbit val' (pin mod 8)
          = match value with HIGH => true | _ => false end
       /\ (forall i, 0 <= i -> i <> pin mod 8 ->
             Z.testbit val' i = Z.testbit val i)
       /\ (healthy self w = true ->
           val = u8 (regs w reg)
           /\ forall r', regs w' r' = if r' =? reg then val' else regs w r').
Proof.
  intros Hp Hv. cbv zeta.
  destruct (pin_bit pin Hp) as [Erem Hbit].
  set (reg := bank pin OLATA OLATB).
  split; [apply readReg_trace | ].
  pose proof (readReg_range self reg w) as Rv.
  pose proof (healthy_after_read self reg w) as Hh.
  pose proof (readReg_healthy self reg w) as Hr.
  destruct (readReg self reg w) as [val w1] eqn:Ev. cbn [fst snd] in *.
  assert (E : pinWrite self pin value w
              = writeReg self reg
                  (match value with
                   | HIGH => or_bit val (pin mod 8)
                   | _ => and_not_bit val (pin mod 8)
                   end) w1).
  { unfold pinWrite, bind. rewrite pinCheck_accepts by exact Hp. cbn [negb].
    fold (bank pin OLATA OLATB). fold reg. run_with Ev. rewrite Erem.
    destruct value; [reflexivity | reflexivity | contradiction]. }
  rewrite E.
  match goal with
  | |- context [writeReg self reg ?x w1] => set (val' := x)
  end.
  destruct (writeReg_trace self reg val' w1) as [r T].
  pose proof (writeReg_healthy self reg val' w1) as W.
  exists val', r. split; [exact T | ]. repeat split.
  - subst val'. destruct value;
      byte_bits;
      rewrite ?Z.eqb_refl; try reflexivity; contradiction.
  - intros i Hi Hne. subst val'. destruct value;
      byte_bits;
      destruct (Z.eqb_spec i (pin mod 8)); try reflexivity; contradiction.
  - specialize (Hr H). now injection Hr as -> _.
  - intros r'. rewrite (W (Hh H)). specialize (Hr H).
    injection Hr as _ ->. cbn. reflexivity.
Qed.

Lemma pinWrite_touches_one_latch_bit_witness :
  regs (snd (pinWrite sample_dev 2 HIGH sample_world)) OLATA = 0xF4
  /\ regs (snd (pinWrite sample_dev 2 HIGH sample_world)) GPIOA = 0.
Proof.
  destruct (pinWrite_touches_one_latch_bit sample_dev 2 HIGH sample_world)
    as (_ & val' & r & T & _ & _ & F); [lia | discriminate | ].
  destruct (F eq_refl) as [_ R]. rewrite !R.
  vm_compute in T. injection T as <- _. split; reflexivity.
Defined.

(** ** Pin direction and pull-up *)

(** C2. For a pin in [0, 15] and any registers, [pinMode] hands to [write]
    a direction byte and then a pull-up byte for the pin's bank whose bit
    [pin mod 8] is: cleared and cleared for [OUTPUT]; set and cleared for
    [INPUT]; set and set for [INPUT_PULLUP].  On a working bus these bytes
    are what the two registers then hold, so the two bits have these values
    whatever they were before. *)
Theorem pinMode_direction_and_pullup
        (self : MCP23017) (pin : Z) (mode : pin_Mode) (w : World) :
  0 <= pin <= 15 ->
  let regDir := bank pin IODIRA IODIRB in
  let regPup := bank pin GPPUA GPPUB in
  let w2 := snd (readReg self regPup (snd (readReg self regDir w))) in
  let w' := snd (pinMode self pin mode w) in
  exists dirVal pupVal r1 r2,
    trace w' = trace w2 ++ [sys_write (fd self) [regDir; dirVal] r1;
                            sys_write (fd self) [regPup; pupVal] r2]
    /\ Z.testbit dirVal (pin mod 8)
       = match mode with OUTPUT => false | _ => true end
    /\ Z.testbit pupVal (pin mod 8)
       = match mode with INPUT_PULLUP => true | _ => false end
    /\ (healthy self w = true ->
        Z.testbit (regs w' regDir) (pin mod 8)
        = match mode with OUTPUT => false | _ => true end
        /\ Z.testbit (regs w' regPup) (pin mod 8)
           = match mode with INPUT_PULLUP => true | _ => false end).
Proof.
  intros Hp. cbv zeta.
  destruct (pin_bit pin Hp) as [Erem Hbit].
  set (regDir := bank pin IODIRA IODIRB).
  set (regPup := bank pin GPPUA GPPUB).
  assert (Hne : (regDir =? regPup) = false).
  { subst regDir regPup. unfold bank. destruct (pin <? 8); reflexivity. }
  pose proof (readReg_range self regDir w) as Rd.
  pose proof (healthy_after_read self regDir w) as Hh1.
  destruct (readReg self regDir w) as [d w1] eqn:Ed. cbn [fst snd] in *.
  pose proof (readReg_range self regPup w1) as Ru.
  pose proof (healthy_after_read self regPup w1) as Hh2.
  destruct (readReg self regPup w1) as [u w2] eqn:Eu. cbn [fst snd] in *.
  set (d' := match mode with
             | OUTPUT => and_not_bit d (pin mod 8)
             | _ => or_bit d (pin mod 8)
             end).
  set (u' := match mode with
             | INPUT_PULLUP => or_bit u (pin mod 8)
             | _ => and_not_bit u (pin mod 8)
             end).
  destruct (writeReg_trace self regDir d' w2) as [r1 T1].
  pose proof (writeReg_healthy self regDir d' w2) as W1.
  pose proof (healthy_after_write self regDir d' w2) as Hh3.
  destruct (writeReg self regDir d' w2) as [[] w3] eqn:E3. cbn [fst snd] in *.
  destruct (writeReg_trace self regPup u' w3) as [r2 T2].
  pose proof (writeReg_healthy self regPup u' w3) as W2.
  destruct (writeReg self regPup u' w3) as [[] w4] eqn:E4. cbn [fst snd] in *.
  assert (E : pinMode self pin mode w = (tt, w4)).
  { unfold pinMode, bind. rewrite pinCheck_accepts by exact Hp. cbn [negb].
    fold (bank pin IODIRA IODIRB) (bank pin GPPUA GPPUB).
    fold regDir regPup. run_with Ed. run_with Eu. rewrite Erem.
    subst d' u'. destruct mode; run_with E3; exact E4. }
  assert (Bd : Z.testbit d' (pin mod 8)
               = match mode with OUTPUT => false | _ => true end).
  { subst d'. destruct mode; byte_bits; now rewrite Z.eqb_refl. }
  assert (Bu : Z.testbit u' (pin mod 8)
               = match mode with INPUT_PULLUP => true | _ => false end).
  { subst u'. destruct mode; byte_bits; now rewrite Z.eqb_refl. }
  rewrite E. cbn [snd].
  exists d', u', r1, r2. repeat split; try assumption.
  - rewrite T2, T1, <- app_assoc. reflexivity.
  - injection (W2 (Hh3 (Hh2 (Hh1 H)))) as ->.
    injection (W1 (Hh2 (Hh1 H))) as ->. cbn. now rewrite Hne, Z.eqb_refl.
  - injection (W2 (Hh3 (Hh2 (Hh1 H)))) as ->. cbn. now rewrite Z.eqb_refl.
Qed.

Lemma pinMode_direction_and_pullup_witness :
  Z.testbit (regs (snd (pinMode sample_dev 9 INPUT_PULLUP sample_world)) IODIRB) 1
  = true
  /\ Z.testbit (regs (snd (pinMode sample_dev 9 INPUT_PULLUP sample_world)) GPPUB) 1
     = true.
Proof.
  destruct (pinMode_direction_and_pullup sample_dev 9 INPUT_PULLUP sample_world)
    as (d & u & r1 & r2 & _ & _ & _ & F); [lia | ].
  exact (F eq_refl).
Defined.

(** ** Interrupt trigger mode *)

(** C3. For a pin in [0, 15], [intTriggerMode] hands to [write] an
    interrupt-control byte and then a default-compare byte for the pin's
    bank.  At bit [pin mod 8]: [RISING] sets both; [FALLING] sets the control
    bit and clears the compare bit; [CHANGE] clears the control bit and
    writes the compare byte back exactly as read.  Every other bit of either
    byte is the bit that was read.  On a working bus the bytes read are the
    contents of the two registers and afterwards every other register holds
    what it held before. *)
Theorem intTriggerMode_encoding
        (self : MCP23017) (pin : Z) (mode : int_Mode) (w : World) :
  0 <= pin <= 15 ->
  let regINTCON := bank pin INTCONA INTCONB in
  let regDEFVAL := bank pin DEFVALA DEFVALB in
  let intConVal := fst (readReg self regINTCON w) in
  let w1 := snd (readReg self regINTCON w) in
  let defVal := fst (readReg self regDEFVAL w1) in
  let w2 := snd (readReg self regDEFVAL w1) in
  let w' := snd (intTriggerMode self pin mode w) in
  exists c d r1 r2,
    trace w' = trace w2 ++ [sys_write (fd self) [regINTCON; c] r1;
                            sys_write (fd self) [regDEFVAL; d] r2]
    /\ Z.testbit c (pin mod 8)
       = match mode with CHANGE => false | _ => true end
    /\ match mode with
       | RISING => Z.testbit d (pin mod 8) = true
       | FALLING => Z.testbit d (pin mod 8) = false
       | CHANGE => d = defVal
       end
    /\ (forall i, 0 <= i -> i <> pin mod 8 ->
          Z.testbit c i = Z.testbit intConVal i
          /\ Z.testbit d i = Z.testbit defVal i)
    /\ (healthy self w = true ->
        intConVal = u8 (regs w regINTCON)
        /\ defVal = u8 (regs w regDEFVAL)
        /\ forall r', regs w' r'
                      = if r' =? regDEFVAL then d
                        else if r' =? regINTCON then c
                        else regs w r').
Proof.
  intros Hp. cbv zeta.
  destruct (pin_bit pin Hp) as [Erem Hbit].
  set (regINTCON := bank pin INTCONA INTCONB).
  set (regDEFVAL := bank pin DEFVALA DEFVALB).
  pose proof (readReg_range self regINTCON w) as Rc.
  pose proof (healthy_after_read self regINTCON w) as Hh1.
  pose proof (readReg_healthy self regINTCON w) as Hr1.
  destruct (readReg self regINTCON w) as [c w1] eqn:Ec. cbn [fst snd] in *.
  pose proof (readReg_range self regDEFVAL w1) as Rd.
  pose proof (healthy_after_read self regDEFVAL w1) as Hh2.
  pose proof (readReg_healthy self regDEFVAL w1) as Hr2.
  destruct (readReg self regDEFVAL w1) as [d w2] eqn:Ed. cbn [fst snd] in *.
  set (c' := match mode with
             | CHANGE => and_not_bit c (pin mod 8)
             | _ => or_bit c (pin mod 8)
             end).
  set (d' := match mode with
             | CHANGE => d
             | RISING => or_bit d (pin mod 8)
             | FALLING => and_not_bit d (pin mod 8)
             end).
  destruct (writeReg_trace self regINTCON c' w2) as [r1 T1].
  pose proof (writeReg_healthy self regINTCON c' w2) as W1.
  pose proof (healthy_after_write self regINTCON c' w2) as Hh3.
  destruct (writeReg self regINTCON c' w2) as [[] w3] eqn:E3. cbn [fst snd] in *.
  destruct (writeReg_trace self regDEFVAL d' w3) as [r2 T2].
  pose proof (writeReg_healthy self regDEFVAL d' w3) as W2.
  destruct (writeReg self regDEFVAL d' w3) as [[] w4] eqn:E4. cbn [fst snd] in *.
  assert (E : intTriggerMode self pin mode w = (tt, w4)).
  { unfold intTriggerMode, bind. rewrite pinCheck_accepts by exact Hp. cbn [negb].
    fold (bank pin INTCONA INTCONB) (bank pin DEFVALA DEFVALB).
    fold regINTCON regDEFVAL. run_with Ec. run_with Ed. rewrite Erem.
    subst c' d'. destruct mode; run_with E3; exact E4. }
  rewrite E. cbn [snd].
  exists c', d', r1, r2. split; [ | split; [ | split; [ | split]]].
  - rewrite T2, T1, <- app_assoc. reflexivity.
  - subst c'. destruct mode; byte_bits; now rewrite Z.eqb_refl.
  - subst d'. destruct mode; byte_bits; rewrite ?Z.eqb_refl; reflexivity.
  - intros i Hi Hne. subst c' d'.
    destruct mode; byte_bits;
      destruct (Z.eqb_spec i (pin mod 8)); try contradiction; auto.
  - intros H. specialize (Hr1 H). injection Hr1 as Hc Hw1.
    specialize (Hr2 (Hh1 H)). injection Hr2 as Hd Hw2.
    split; [exact Hc | ]. split; [rewrite Hd, Hw1; reflexivity | ].
    intros r'. injection (W2 (Hh3 (Hh2 (Hh1 H)))) as ->.
    injection (W1 (Hh2 (Hh1 H))) as ->. rewrite Hw2, Hw1. reflexivity.
Qed.

Lemma intTriggerMode_encoding_witness :
  regs (snd (intTriggerMode sample_dev 3 RISING sample_world)) INTCONA = 0x08
  /\ regs (snd (intTriggerMode sample_dev 3 RISING sample_world)) DEFVALA = 0x08
  /\ regs (snd (intTriggerMode sample_dev 3 RISING sample_world)) OLATA = 0xF0.
Proof.
  destruct (intTriggerMode_encoding sample_dev 3 RISING sample_world)
    as (c & d & r1 & r2 & T & _ & _ & _ & F); [lia | ].
  destruct (F eq_refl) as (_ & _ & R). rewrite !R.
  vm_compute in T. injection T as <- _ <- _. repeat split.
Defined.

(** ** Interrupt capture *)

Lemma quiet_refl (P : syscall -> bool) (w : World) : quiet P w w.
Proof.
  split; [reflexivity | ]. exists []. now rewrite app_nil_r.
Qed.

Lemma quiet_trans (P : syscall -> bool) (w1 w2 w3 : World) :
  quiet P w1 w2 -> quiet P w2 w3 -> quiet P w1 w3.
Proof.
  intros [R1 (c1 & T1 & F1)] [R2 (c2 & T2 & F2)]. split.
  - now rewrite R2.
  - exists (c1 ++ c2). rewrite T2, T1, app_assoc. split; [reflexivity | ].
    rewrite forallb_app, F1, F2. reflexivity.
Qed.

Lemma quiet_cerr (P : syscall -> bool) (line : string) (w : World) :
  quiet P w (log_cerr line w).
Proof.
  split; [reflexivity | ]. exists []. cbn. now rewrite app_nil_r.
Qed.

Lemma readReg_reads_only (self : MCP23017) (reg : Z) (w : World) :
  reads_only w (snd (readReg self reg w)).
Proof.
  split; [apply readReg_regs | ].
  destruct (readReg_trace self reg w) as (r & rest & T & [-> | [r' ->]]);
    eexists; (split; [exact T | reflexivity]).
Qed.

Lemma clearIntCapture_reads (self : MCP23017) (pin : Z) (w : World) :
  clearIntCapture self pin w
  = (tt, snd (readReg self (bank pin GPIOA GPIOB) w)).
Proof.
  unfold clearIntCapture, bank, bind, ret.
  destruct (pin <? 8).
  - now destruct (readReg self GPIOA w).
  - now destruct (readReg self GPIOB w).
Qed.

(** The acknowledgement reads of [getIntCapture], one per reported pin. *)
Lemma acknowledge_reads_only (self : MCP23017) (pins : list Z) (w : World) :
  reads_only w
    (fold_left (fun w pin => snd (readReg self (bank pin GPIOA GPIOB) w)) pins w).
Proof.
  revert w. induction pins as [ | pin pins IH]; intros w; cbn [fold_left].
  - apply quiet_refl.
  - eapply quiet_trans; [apply readReg_reads_only | apply IH].
Qed.

Lemma capture_loop_spec (self : MCP23017) (flags captured : Z) (clear : bool)
      (n : nat) (pin : Z) (events : list IntEvent) (w : World) :
  0 <= pin ->
  let reported := filter (Z.testbit flags) (pin_range n pin) in
  capture_loop self flags captured clear n pin events w
  = (events ++ map (fun p => mkIntEvent p (Z.testbit captured p)) reported,
     if clear
     then fold_left (fun w p => snd (readReg self (bank p GPIOA GPIOB) w))
                    reported w
     else w).
Proof.
  revert pin events w.
  induction n as [ | n IH]; intros pin events w Hp; cbn [capture_loop pin_range filter].
  - cbn. rewrite app_nil_r. now destruct clear.
  - rewrite !mask_test_bit by exact Hp.
    destruct (Z.testbit flags pin) eqn:Eflag.
    + unfold bind. destruct clear.
      * rewrite clearIntCapture_reads. rewrite IH by lia.
        cbn [map fold_left]. now rewrite <- app_assoc.
      * unfold ret. rewrite IH by lia. cbn [map]. now rewrite <- app_assoc.
    + now rewrite IH by lia.
Qed.

Lemma pin_range_bounds (n : nat) (pin p : Z) :
  In p (pin_range n pin) -> pin <= p < pin + Z.of_nat n.
Proof.
  revert pin. induction n as [ | n IH]; intros pin H; cbn [pin_range] in H.
  - contradiction.
  - destruct H as [<- | H]; [lia | ]. apply IH in H. lia.
Qed.

Lemma pin_range_sorted (n : nat) (pin : Z) : StronglySorted Z.lt (pin_range n pin).
Proof.
  revert pin. induction n as [ | n IH]; intros pin; cbn [pin_range].
  - constructor.
  - constructor; [apply IH | ]. apply Forall_forall. intros p H.
    apply pin_range_bounds in H. lia.
Qed.

Lemma filter_sorted (f : Z -> bool) (l : list Z) :
  StronglySorted Z.lt l -> StronglySorted Z.lt (filter f l).
Proof.
  induction 1 as [ | x l Hs IH Hall]; cbn [filter]; [constructor | ].
  destruct (f x); [ | exact IH]. constructor; [exact IH | ].
  apply Forall_forall. intros y Hy. apply filter_In in Hy as [Hy _].
  revert y Hy. now apply Forall_forall.
Qed.

(** C9. With [flags] and [captured] the fields assembled from the two flag
    bytes and the two capture bytes that [getIntCapture] reads, the events
    returned are exactly the pins of [0 .. 15] whose flag bit is set, each
    once and in ascending order, each with the bit of [captured] at its own
    index as level.  With [clear] the final world is the one reached by
    reading, for each reported pin in turn, [GPIOA] (pins below 8) or [GPIOB];
    without it nothing follows the four reads.  In either case no call of the
    whole operation stores a byte in any register, the flag registers
    included, and the register file is left as it was. *)
Theorem getIntCapture_events (self : MCP23017) (clear : bool) (w : World) :
  let a := fst (readReg self INTFA w) in
  let w1 := snd (readReg self INTFA w) in
  let b := fst (readReg self INTFB w1) in
  let w2 := snd (readReg self INTFB w1) in
  let capA := fst (readReg self INTCAPA w2) in
  let w3 := snd (readReg self INTCAPA w2) in
  let capB := fst (readReg self INTCAPB w3) in
  let w4 := snd (readReg self INTCAPB w3) in
  let flags := b * 256 + a in
  let captured := capB * 256 + capA in
  let reported := filter (Z.testbit flags) all_pins in
  let w' := snd (getIntCapture self clear w) in
  fst (getIntCapture self clear w)
  = map (fun pin => mkIntEvent pin (Z.testbit captured pin)) reported
  /\ StronglySorted Z.lt reported
  /\ (forall pin, In pin reported <-> 0 <= pin <= 15 /\ Z.testbit flags pin = true)
  /\ w' = (if clear
           then fold_left
                  (fun w pin => snd (readReg self (bank pin GPIOA GPIOB) w))
                  reported w4
           else w4)
  /\ reads_only w w'.
Proof.
  cbv zeta.
  pose proof (readReg_range self INTFA w) as Ra.
  pose proof (readReg_reads_only self INTFA w) as O1.
  destruct (readReg self INTFA w) as [a w1] eqn:Ea. cbn [fst snd] in *.
  pose proof (readReg_range self INTFB w1) as Rb.
  pose proof (readReg_reads_only self INTFB w1) as O2.
  destruct (readReg self INTFB w1) as [b w2] eqn:Eb. cbn [fst snd] in *.
  pose proof (readReg_range self INTCAPA w2) as Rca.
  pose proof (readReg_reads_only self INTCAPA w2) as O3.
  destruct (readReg self INTCAPA w2) as [capA w3] eqn:Eca. cbn [fst snd] in *.
  pose proof (readReg_range self INTCAPB w3) as Rcb.
  pose proof (readReg_reads_only self INTCAPB w3) as O4.
  destruct (readReg self INTCAPB w3) as [capB w4] eqn:Ecb. cbn [fst snd] in *.
  assert (E : getIntCapture self clear w
              = capture_loop self (b * 256 + a) (capB * 256 + capA)
                             clear 16 0 [] w4).
  { unfold getIntCapture, bind.
    run_with Ea. run_with Eb. run_with Eca. run_with Ecb.
    fold (assemble16 b a) (assemble16 capB capA).
    now rewrite !assemble16_value. }
  rewrite E, capture_loop_spec by lia. cbv zeta. cbn [fst snd app].
  fold all_pins.
  split; [reflexivity | ]. split; [ | split; [ | split; [reflexivity | ]]].
  - apply filter_sorted, pin_range_sorted.
  - intros pin. rewrite filter_In. split.
    + intros [Hin Hbit]. apply pin_range_bounds in Hin. split; [lia | exact Hbit].
    + intros [Hr Hbit]. split; [ | exact Hbit].
      assert (H16 : pin = 0 \/ pin = 1 \/ pin = 2 \/ pin = 3 \/ pin = 4
                    \/ pin = 5 \/ pin = 6 \/ pin = 7 \/ pin = 8 \/ pin = 9
                    \/ pin = 10 \/ pin = 11 \/ pin = 12 \/ pin = 13
                    \/ pin = 14 \/ pin = 15) by lia.
      cbn. intuition auto.
  - eapply quiet_trans; [exact O1 | ].
    eapply quiet_trans; [exact O2 | ].
    eapply quiet_trans; [exact O3 | ].
    eapply quiet_trans; [exact O4 | ].
    destruct clear; [apply acknowledge_reads_only | apply quiet_refl].
Qed.

Lemma getIntCapture_events_witness :
  fst (getIntCapture sample_dev true sample_world)
  = [mkIntEvent 0 false; mkIntEvent 10 true]
  /\ reads_only sample_world (snd (getIntCapture sample_dev true sample_world)).
Proof.
  destruct (getIntCapture_events sample_dev true sample_world)
    as (E & _ & _ & _ & Q).
  split; [rewrite E; reflexivity | exact Q].
Defined.

(** The three views of the flags on the sample chip, and the direction
    registers after a successful construction. *)
Example getInterruptPins_sample :
  fst (getInterruptPins sample_dev false sample_world) = [0; 10].
Proof. reflexivity. Qed.

Example flagged_pins_0x0005 : flagged_pins 0x0005 16 0 = [0; 2].
Proof. reflexivity. Qed.

Example constructor_sets_all_inputs :
  let w0 := snd (MCP23017_ctor 0x20 "/dev/i2c-1" sample_world) in
  regs w0 IODIRA = 0xFF /\ regs w0 IODIRB = 0xFF /\ cerr w0 = [].
Proof. repeat split. Qed.

Example pinRead_sample :
  fst (pinRead sample_dev 0 sample_world) = LOW.
Proof. reflexivity. Qed.

(** ** Rejected pin indices *)

Lemma u8_minus_one : u8 (-1) = 255.
Proof. reflexivity. Qed.

Lemma pinRead_level (self : MCP23017) (pin : Z) (w : World) :
  0 <= pin <= 15 -> fst (pinRead self pin w) <> ERROR.
Proof.
  intros Hp. unfold pinRead, bind. rewrite pinCheck_accepts by exact Hp.
  cbn [negb]. destruct (readReg self _ w) as [val w1]. unfold ret. cbn [fst].
  destruct (negb _); discriminate.
Qed.

(** C4, as the code has it.  For every argument whose [uint8_t] value is
    above 15 (16, and -1 which arrives as 255), each of the six methods that
    take a pin index prints ["Valid Pinnums 0-15"] on [std::cerr] and returns
    at once: no system call is issued and no register changes.  [pinRead]
    returns [ERROR], which it never returns for an accepted pin;
    [isInterruptOnPin] returns [false]; [pinMode], [pinWrite], [enableInt] and
    [intTriggerMode] return nothing. *)
Theorem rejected_pin_is_logged_only (self : MCP23017) (i : Z) (w : World) :
  15 < u8 i ->
  let pin := u8 i in
  let w' := log_cerr "Valid Pinnums 0-15" w in
  (forall mode, pinMode self pin mode w = (tt, w'))
  /\ (forall value, pinWrite self pin value w = (tt, w'))
  /\ pinRead self pin w = (ERROR, w')
  /\ (forall enable, enableInt self pin enable w = (tt, w'))
  /\ (forall mode, intTriggerMode self pin mode w = (tt, w'))
  /\ (forall clear, isInterruptOnPin self pin clear w = (false, w'))
  /\ trace w' = trace w
  /\ regs w' = regs w
  /\ cerr w' = cerr w ++ ["Valid Pinnums 0-15"]
  /\ (forall valid, 0 <= valid <= 15 -> fst (pinRead self valid w) <> ERROR).
Proof.
  intros Hi. cbv zeta.
  assert (C : pinCheck (u8 i) w = (false, log_cerr "Valid Pinnums 0-15" w))
    by (apply pinCheck_rejects; now right).
  repeat split; intros;
    try (unfold pinMode, pinWrite, pinRead, enableInt, intTriggerMode,
           isInterruptOnPin, bind; rewrite C; reflexivity).
  now apply pinRead_level.
Qed.

Lemma rejected_pin_is_logged_only_witness :
  pinRead sample_dev 255 sample_world
  = (ERROR, log_cerr "Valid Pinnums 0-15" sample_world)
  /\ pinMode sample_dev 16 OUTPUT sample_world
     = (tt, log_cerr "Valid Pinnums 0-15" sample_world).
Proof.
  split.
  - apply (rejected_pin_is_logged_only sample_dev (-1) sample_world). reflexivity.
  - apply (rejected_pin_is_logged_only sample_dev 16 sample_world). reflexivity.
Defined.

(** C4 fails as stated: what [pinMode] returns for the rejected pin 16 is what
    it returns for the accepted pin 0, and what [isInterruptOnPin] returns for
    pin 16 is what it returns for pin 1 when that pin has no interrupt
    pending, so no inspection of the result tells rejection from success. *)
Lemma rejected_pin_not_inspectable :
  ~ rejection_inspectable (fun pin => pinMode sample_dev pin OUTPUT) sample_world
  /\ ~ rejection_inspectable
         (fun pin => isInterruptOnPin sample_dev pin false) sample_world.
Proof.
  split; intros [rejected H].
  - pose proof (H 16 ltac:(lia)) as H16. pose proof (H 0 ltac:(lia)) as H0.
    destruct (fst (pinMode sample_dev 16 OUTPUT sample_world)).
    destruct (fst (pinMode sample_dev 0 OUTPUT sample_world)).
    cbn in H16, H0. congruence.
  - pose proof (H 16 ltac:(lia)) as H16. pose proof (H 1 ltac:(lia)) as H1.
    vm_compute in H16, H1. congruence.
Qed.

(** ** Failed priming reads *)

Lemma or_bit_zero (bit : Z) : 0 <= bit < 8 -> or_bit 0 bit = 2 ^ bit.
Proof.
  intros H.
  assert (C : bit = 0 \/ bit = 1 \/ bit = 2 \/ bit = 3
              \/ bit = 4 \/ bit = 5 \/ bit = 6 \/ bit = 7) by lia.
  repeat (destruct C as [-> | C]; [reflexivity | ]). now subst.
Qed.

Lemma and_not_bit_zero (bit : Z) : and_not_bit 0 bit = 0.
Proof. unfold and_not_bit. now rewrite Z.land_0_l. Qed.

(** C7, as the code has it.  A register read that fails is reported on
    [std::cerr] and yields the byte zero, and every read-modify-write method
    goes on to its register write with the byte computed from that zero:
    only the bits the method itself sets are set.  For [pinWrite],
    [enableInt] and [intOutputMode] this is the one byte written.  [pinMode]
    and [intTriggerMode] prime two registers and always write both; whichever
    of the two reads fails, the first (direction, interrupt control) or the
    second (pull-up, default compare), the byte written to that register is
    the one computed from zero. *)
Theorem failed_read_is_replaced_by_zero (self : MCP23017) (w : World) :
  (forall reg, read_throws self reg w = true ->
     fst (readReg self reg w) = 0
     /\ cerr (snd (readReg self reg w)) = cerr w ++ ["Error: I2C write failed"])
  /\ (forall pin value, 0 <= pin <= 15 -> value <> ERROR ->
      let reg := bank pin OLATA OLATB in
      read_throws self reg w = true ->
      exists r,
        trace (snd (pinWrite self pin value w))
        = trace (snd (readReg self reg w))
          ++ [sys_write (fd self)
                [reg; match value with HIGH => 2 ^ (pin mod 8) | _ => 0 end] r])
  /\ (forall pin enable, 0 <= pin <= 15 ->
      let reg := bank pin GPINTENA GPINTENB in
      read_throws self reg w = true ->
      exists r,
        trace (snd (enableInt self pin enable w))
        = trace (snd (readReg self reg w))
          ++ [sys_write (fd self)
                [reg; if enable then 2 ^ (pin mod 8) else 0] r])
  /\ (forall w_INTPOL w_ODR w_MIRROR,
      read_throws self IOCON w = true ->
      exists r,
        trace (snd (intOutputMode self w_INTPOL w_ODR w_MIRROR w))
        = trace (snd (readReg self IOCON w))
          ++ [sys_write (fd self)
                [IOCON;
                 (if w_ODR then 4
                  else match w_INTPOL with HIGH => 2 | _ => 0 end)
                 + (if w_MIRROR then 64 else 0)] r])
  /\ (forall pin mode, 0 <= pin <= 15 ->
      let regDir := bank pin IODIRA IODIRB in
      let regPup := bank pin GPPUA GPPUB in
      let w1 := snd (readReg self regDir w) in
      let w2 := snd (readReg self regPup w1) in
      exists dirVal pupVal r1 r2,
        trace (snd (pinMode self pin mode w))
        = trace w2 ++ [sys_write (fd self) [regDir; dirVal] r1;
                       sys_write (fd self) [regPup; pupVal] r2]
        /\ (read_throws self regDir w = true ->
            dirVal = match mode with OUTPUT => 0 | _ => 2 ^ (pin mod 8) end)
        /\ (read_throws self regPup w1 = true ->
            pupVal = match mode with
                     | INPUT_PULLUP => 2 ^ (pin mod 8)
                     | _ => 0
                     end))
  /\ (forall pin mode, 0 <= pin <= 15 ->
      let regINTCON := bank pin INTCONA INTCONB in
      let regDEFVAL := bank pin DEFVALA DEFVALB in
      let w1 := snd (readReg self regINTCON w) in
      let w2 := snd (readReg self regDEFVAL w1) in
      exists intConVal defVal r1 r2,
        trace (snd (intTriggerMode self pin mode w))
        = trace w2 ++ [sys_write (fd self) [regINTCON; intConVal] r1;
                       sys_write (fd self) [regDEFVAL; defVal] r2]
        /\ (read_throws self regINTCON w = true ->
            intConVal = match mode with CHANGE => 0 | _ => 2 ^ (pin mod 8) end)
        /\ (read_throws self regDEFVAL w1 = true ->
            defVal = match mode with RISING => 2 ^ (pin mod 8) | _ => 0 end)).
Proof.
  split; [intros reg; apply readReg_thrown | ].
  split; [ | split; [ | split; [ | split]]].
  - intros pin value Hp Hv reg Ht.
    destruct (pin_bit pin Hp) as [Erem Hbit].
    destruct (readReg_thrown self reg w Ht) as [E0 _].
    destruct (readReg self reg w) as [val w1] eqn:Ev. cbn [fst snd] in *. subst val.
    unfold pinWrite, bind. rewrite pinCheck_accepts by exact Hp. cbn [negb].
    fold (bank pin OLATA OLATB). fold reg. run_with Ev. rewrite Erem.
    destruct value; try contradiction;
      rewrite ?or_bit_zero, ?and_not_bit_zero by exact Hbit;
      apply writeReg_trace.
  - intros pin enable Hp reg Ht.
    destruct (pin_bit pin Hp) as [Erem Hbit].
    destruct (readReg_thrown self reg w Ht) as [E0 _].
    destruct (readReg self reg w) as [val w1] eqn:Ev. cbn [fst snd] in *. subst val.
    unfold enableInt, bind. rewrite pinCheck_accepts by exact Hp. cbn [negb].
    fold (bank pin GPINTENA GPINTENB). fold reg. run_with Ev. rewrite Erem.
    destruct enable;
      rewrite ?or_bit_zero, ?and_not_bit_zero by exact Hbit;
      apply writeReg_trace.
  - intros w_INTPOL w_ODR w_MIRROR Ht.
    destruct (readReg_thrown self IOCON w Ht) as [E0 _].
    destruct (readReg self IOCON w) as [val w1] eqn:Ev. cbn [fst snd] in *. subst val.
    unfold intOutputMode, bind. run_with Ev.
    destruct w_ODR, w_MIRROR, w_INTPOL; apply writeReg_trace.
  - intros pin mode Hp regDir regPup.
    destruct (pin_bit pin Hp) as [Erem Hbit].
    pose proof (readReg_thrown self regDir w) as Z1.
    destruct (readReg self regDir w) as [d w1] eqn:Ed. cbn [fst snd] in *.
    pose proof (readReg_thrown self regPup w1) as Z2.
    destruct (readReg self regPup w1) as [u w2] eqn:Eu. cbn [fst snd] in *.
    set (d' := match mode with
               | OUTPUT => and_not_bit d (pin mod 8)
               | _ => or_bit d (pin mod 8)
               end).
    set (u' := match mode with
               | INPUT_PULLUP => or_bit u (pin mod 8)
               | _ => and_not_bit u (pin mod 8)
               end).
    destruct (writeReg_trace self regDir d' w2) as [r1 T1].
    destruct (writeReg self regDir d' w2) as [[] w3] eqn:E3. cbn [fst snd] in *.
    destruct (writeReg_trace self regPup u' w3) as [r2 T2].
    destruct (writeReg self regPup u' w3) as [[] w4] eqn:E4. cbn [fst snd] in *.
    assert (E : pinMode self pin mode w = (tt, w4)).
    { unfold pinMode, bind. rewrite pinCheck_accepts by exact Hp. cbn [negb].
      fold (bank pin IODIRA IODIRB) (bank pin GPPUA GPPUB).
      fold regDir regPup. run_with Ed. run_with Eu. rewrite Erem.
      subst d' u'. destruct mode; run_with E3; exact E4. }
    rewrite E. cbn [snd]. exists d', u', r1, r2.
    split; [rewrite T2, T1, <- app_assoc; reflexivity | ]. split.
    + intros Ht. destruct (Z1 Ht) as [-> _]. subst d'.
      destruct mode; rewrite ?or_bit_zero, ?and_not_bit_zero by exact Hbit;
        reflexivity.
    + intros Ht. destruct (Z2 Ht) as [-> _]. subst u'.
      destruct mode; rewrite ?or_bit_zero, ?and_not_bit_zero by exact Hbit;
        reflexivity.
  - intros pin mode Hp regINTCON regDEFVAL.
    destruct (pin_bit pin Hp) as [Erem Hbit].
    pose proof (readReg_thrown self regINTCON w) as Z1.
    destruct (readReg self regINTCON w) as [c w1] eqn:Ec. cbn [fst snd] in *.
    pose proof (readReg_thrown self regDEFVAL w1) as Z2.
    destruct (readReg self regDEFVAL w1) as [d w2] eqn:Ed. cbn [fst snd] in *.
    set (c' := match mode with
               | CHANGE => and_not_bit c (pin mod 8)
               | _ => or_bit c (pin mod 8)
               end).
    set (d' := match mode with
               | CHANGE => d
               | RISING => or_bit d (pin mod 8)
               | FALLING => and_not_bit d (pin mod 8)
               end).
    destruct (writeReg_trace self regINTCON c' w2) as [r1 T1].
    destruct (writeReg self regINTCON c' w2) as [[] w3] eqn:E3. cbn [fst snd] in *.
    destruct (writeReg_trace self regDEFVAL d' w3) as [r2 T2].
    destruct (writeReg self regDEFVAL d' w3) as [[] w4] eqn:E4. cbn [fst snd] in *.
    assert (E : intTriggerMode self pin mode w = (tt, w4)).
    { unfold intTriggerMode, bind. rewrite pinCheck_accepts by exact Hp.
      cbn [negb]. fold (bank pin INTCONA INTCONB) (bank pin DEFVALA DEFVALB).
      fold regINTCON regDEFVAL. run_with Ec. run_with Ed. rewrite Erem.
      subst c' d'. destruct mode; run_with E3; exact E4. }
    rewrite E. cbn [snd]. exists c', d', r1, r2.
    split; [rewrite T2, T1, <- app_assoc; reflexivity | ]. split.
    + intros Ht. destruct (Z1 Ht) as [-> _]. subst c'.
      destruct mode; rewrite ?or_bit_zero, ?and_not_bit_zero by exact Hbit;
        reflexivity.
    + intros Ht. destruct (Z2 Ht) as [-> _]. subst d'.
      destruct mode; rewrite ?or_bit_zero, ?and_not_bit_zero by exact Hbit;
        reflexivity.
Qed.

Lemma failed_read_is_replaced_by_zero_witness :
  fst (readReg sample_dev OLATA flaky_world) = 0
  /\ (exists r,
        trace (snd (pinWrite sample_dev 0 HIGH flaky_world))
        = trace (snd (readReg sample_dev OLATA flaky_world))
          ++ [sys_write 3 [OLATA; 1] r])
  /\ (let w := mkWorld 3 0 [false; false; true]
                 (fun r => if r =? GPPUA then 0xF0 else sample_regs r) 0 [] [] in
      exists dirVal r1 r2,
        trace (snd (pinMode sample_dev 0 INPUT_PULLUP w))
        = trace (snd (readReg sample_dev GPPUA
                        (snd (readReg sample_dev IODIRA w))))
          ++ [sys_write 3 [IODIRA; dirVal] r1; sys_write 3 [GPPUA; 0x01] r2]).
Proof.
  destruct (failed_read_is_replaced_by_zero sample_dev flaky_world)
    as (R & P & _).
  split; [apply (R OLATA); reflexivity | ].
  split; [apply (P 0 HIGH); [lia | discriminate | reflexivity] | ].
  cbv zeta.
  destruct (failed_read_is_replaced_by_zero sample_dev
              (mkWorld 3 0 [false; false; true]
                 (fun r => if r =? GPPUA then 0xF0 else sample_regs r) 0 [] []))
    as (_ & _ & _ & _ & M & _).
  destruct (M 0 INPUT_PULLUP ltac:(lia)) as (d & u & r1 & r2 & T & _ & U).
  rewrite (U eq_refl) in T. exists d, r1, r2. exact T.
Defined.

(** C7 fails as stated: behind a bus whose next transfer fails, the read
    that primes [pinWrite(0, HIGH)] throws, and the method still stores a
    byte in the latch: [0x01], built on zero, where the latch held [0xF0];
    the four outputs that were high are driven low. *)
Lemma failed_priming_read_still_writes :
  read_throws sample_dev OLATA flaky_world = true
  /\ regs flaky_world OLATA = 0xF0
  /\ trace (snd (pinWrite sample_dev 0 HIGH flaky_world))
     = [sys_write 3 [OLATA] (-1); sys_write 3 [OLATA; 0x01] 2]
  /\ regs (snd (pinWrite sample_dev 0 HIGH flaky_world)) OLATA = 0x01
  /\ filter is_store (trace (snd (pinWrite sample_dev 0 HIGH flaky_world)))
     <> filter is_store (trace flaky_world).
Proof.
  repeat split; try reflexivity. vm_compute. discriminate.
Qed.

(** ** What every method does to the world *)

Lemma bind_assoc {A B C : Type} (m : M A) (k : A -> M B) (k' : B -> M C)
      (w : World) :
  bind (bind m k) k' w = bind m (fun a => bind (k a) k') w.
Proof. unfold bind. destruct (m w) as [a w1]. reflexivity. Qed.

(** Every method reaches the world through [readReg], [writeReg] and
    [std::cerr] alone: a reflexive and transitive relation that these three
    respect is respected by every method. *)
Section Footprint.

Variable R : World -> World -> Prop.
Variable self : MCP23017.
Hypothesis R_refl : forall w, R w w.
Hypothesis R_trans : forall w1 w2 w3, R w1 w2 -> R w2 w3 -> R w1 w3.
Hypothesis R_cerr : forall line w, R w (log_cerr line w).
Hypothesis R_read : forall reg, respects R (readReg self reg).
Hypothesis R_write : forall reg value, respects R (writeReg self reg value).

Lemma respects_ret {A : Type} (a : A) : respects R (ret a).
Proof. intros w. apply R_refl. Qed.

Lemma respects_bind {A B : Type} (m : M A) (k : A -> M B) :
  respects R m -> (forall a, respects R (k a)) -> respects R (bind m k).
Proof.
  intros Hm Hk w. unfold bind. specialize (Hm w).
  destruct (m w) as [a w1]. cbn [snd] in Hm.
  eapply R_trans; [exact Hm | apply Hk].
Qed.

Lemma respects_cerr_line (line : string) : respects R (cerr_line line).
Proof. intros w. apply R_cerr. Qed.

Lemma respects_pinCheck (pin : Z) : respects R (pinCheck pin).
Proof.
  unfold pinCheck. destruct (_ || _).
  - apply respects_bind; [apply respects_cerr_line | intros; apply respects_ret].
  - apply respects_ret.
Qed.

Ltac respects_step :=
  first
    [ apply respects_ret
    | apply R_read
    | apply R_write
    | apply respects_cerr_line
    | apply respects_pinCheck
    | apply respects_bind; [ | intros ? ]
    | match goal with
      | |- respects _ (if ?b then _ else _) => destruct b
      | |- respects _ (match ?x with _ => _ end) => destruct x
      end ].

Lemma respects_readIntFlags (clear : bool) : respects R (readIntFlags self clear).
Proof. unfold readIntFlags. repeat respects_step. Qed.

Lemma respects_clearIntCapture (pin : Z) : respects R (clearIntCapture self pin).
Proof. unfold clearIntCapture. repeat respects_step. Qed.

Lemma respects_capture_loop (flags captured : Z) (clear : bool) (n : nat)
      (pin : Z) (events : list IntEvent) :
  respects R (capture_loop self flags captured clear n pin events).
Proof.
  revert pin events. induction n as [ | n IH]; intros pin events;
    cbn [capture_loop].
  - apply respects_ret.
  - destruct (mask_test flags pin); [ | apply IH].
    apply respects_bind; [ | intros; apply IH].
    destruct clear; [apply respects_clearIntCapture | apply respects_ret].
Qed.

Lemma respects_perform (c : call) : respects R (perform self c).
Proof.
  destruct c; cbn [perform];
    unfold pinMode, pinWrite, pinRead, enableInt, intOutputMode,
      intTriggerMode, getInterruptFlags, getInterruptPins, isInterruptOnPin,
      getIntCapture, clearInterrupts, enableSlewRateControl,
      setSequentialOperation;
    repeat first
      [ apply respects_readIntFlags
      | apply respects_clearIntCapture
      | apply respects_capture_loop
      | respects_step ].
Qed.

End Footprint.

Lemma trace_grows_refl (w : World) : trace_grows w w.
Proof. exists []. now rewrite app_nil_r. Qed.

Lemma trace_grows_trans (w1 w2 w3 : World) :
  trace_grows w1 w2 -> trace_grows w2 w3 -> trace_grows w1 w3.
Proof.
  intros [c1 T1] [c2 T2]. exists (c1 ++ c2). now rewrite T2, T1, app_assoc.
Qed.

Lemma trace_grows_cerr (line : string) (w : World) :
  trace_grows w (log_cerr line w).
Proof. exists []. cbn. now rewrite app_nil_r. Qed.

Lemma readReg_grows (self : MCP23017) (reg : Z) :
  respects trace_grows (readReg self reg).
Proof.
  intros w. destruct (readReg_trace self reg w) as (r & rest & T & _).
  eexists. exact T.
Qed.

Lemma writeReg_grows (self : MCP23017) (reg value : Z) :
  respects trace_grows (writeReg self reg value).
Proof.
  intros w. destruct (writeReg_trace self reg value w) as [r T].
  eexists. exact T.
Qed.

Lemma readReg_refused (self : MCP23017) (reg : Z) :
  fd self < 0 -> respects nothing_got_through (readReg self reg).
Proof.
  intros H w. rewrite readReg_bad_fd by exact H.
  split; [reflexivity | ]. eexists. split; reflexivity.
Qed.

Lemma writeReg_refused (self : MCP23017) (reg value : Z) :
  fd self < 0 -> respects nothing_got_through (writeReg self reg value).
Proof.
  intros H w. rewrite writeReg_bad_fd by exact H.
  split; [reflexivity | ]. eexists. split; reflexivity.
Qed.

(** A method that begins with a register read begins with a [write] of the
    register address on the stored descriptor. *)
Lemma read_comes_first (self : MCP23017) {A : Type} (reg : Z) (k : Z -> M A)
      (w : World) :
  (forall a, respects trace_grows (k a)) ->
  exists r rest,
    trace (snd (bind (readReg self reg) k w))
    = trace w ++ sys_write (fd self) [reg] r :: rest.
Proof.
  intros Hk. unfold bind.
  destruct (readReg_trace self reg w) as (r & rest & T & _).
  destruct (readReg self reg w) as [a w1]. cbn [snd] in T.
  destruct (Hk a w1) as [calls Tk].
  exists r, (rest ++ calls). rewrite Tk, T, <- app_assoc. reflexivity.
Qed.

Ltac grows :=
  repeat first
    [ apply (respects_ret trace_grows trace_grows_refl)
    | apply readReg_grows
    | apply writeReg_grows
    | apply (respects_cerr_line trace_grows trace_grows_cerr)
    | apply (respects_readIntFlags trace_grows _ trace_grows_refl
               trace_grows_trans (readReg_grows _) (writeReg_grows _))
    | apply (respects_capture_loop trace_grows _ trace_grows_refl
               trace_grows_trans (readReg_grows _))
    | apply (respects_bind trace_grows trace_grows_trans); [ | intros ? ]
    | match goal with
      | |- respects _ (if ?b then _ else _) => destruct b
      | |- respects _ (match ?x with _ => _ end) => destruct x
      end ].

(** No method looks at the descriptor before using it: with a pin that
    [pinCheck] accepts, every method starts by handing a register address to
    [write] on the stored descriptor. *)
Lemma perform_issues_write (self : MCP23017) (c : call) (w : World) :
  pin_accepted c = true ->
  exists reg r rest,
    trace (snd (perform self c w))
    = trace w ++ sys_write (fd self) [reg] r :: rest.
Proof.
  intros Hc.
  assert (Hpin : forall pin, (0 <=? pin) && (pin <=? 15) = true -> 0 <= pin <= 15).
  { intros pin H. apply andb_prop in H as [H1 H2].
    apply Z.leb_le in H1. apply Z.leb_le in H2. lia. }
  destruct c; cbn [perform pin_accepted] in *; try apply Hpin in Hc;
    unfold pinMode, pinWrite, pinRead, enableInt, intOutputMode,
      intTriggerMode, getInterruptFlags, getInterruptPins, isInterruptOnPin,
      getIntCapture, clearIntCapture, clearInterrupts, enableSlewRateControl,
      setSequentialOperation, readIntFlags;
    rewrite ?bind_assoc;
    try (unfold bind at 1; rewrite pinCheck_accepts by exact Hc; cbn [negb]);
    try match goal with
        | |- context [if ?b then _ else _] => destruct b
        end;
    rewrite ?bind_assoc; eexists;
    apply read_comes_first; intros; grows.
Qed.

Lemma pinCheck_then (R : World -> World -> Prop) {A : Type} (pin : Z)
      (k : bool -> M A) :
  0 <= pin <= 15 -> respects R (k true) -> respects R (bind (pinCheck pin) k).
Proof.
  intros Hp Hk w. unfold bind. rewrite pinCheck_accepts by exact Hp. apply Hk.
Qed.

Lemma refused_and_logged_refl (w : World) : refused_and_logged w w.
Proof.
  split; [reflexivity | ]. exists [], []. now rewrite !app_nil_r.
Qed.

Lemma refused_and_logged_trans (w1 w2 w3 : World) :
  refused_and_logged w1 w2 -> refused_and_logged w2 w3 ->
  refused_and_logged w1 w3.
Proof.
  intros [R1 (c1 & l1 & T1 & C1 & F1 & N1)] [R2 (c2 & l2 & T2 & C2 & F2 & N2)].
  split; [now rewrite R2 | ].
  exists (c1 ++ c2), (l1 ++ l2).
  rewrite T2, T1, C2, C1, !app_assoc, forallb_app, F1, F2.
  rewrite count_occ_app, length_app, N1, N2. auto.
Qed.

Lemma readReg_refused_and_logged (self : MCP23017) (reg : Z) :
  fd self < 0 -> respects refused_and_logged (readReg self reg).
Proof.
  intros H w. rewrite readReg_bad_fd by exact H.
  split; [reflexivity | ]. eexists [_], [_]. repeat split.
Qed.

Lemma writeReg_refused_and_logged (self : MCP23017) (reg value : Z) :
  fd self < 0 -> respects refused_and_logged (writeReg self reg value).
Proof.
  intros H w. rewrite writeReg_bad_fd by exact H.
  split; [reflexivity | ]. eexists [_], [_]. repeat split.
Qed.

(** A line other than the transfer error adds no refusal to account for. *)
Lemma other_line_refused_and_logged (line : string) :
  line <> "Error: I2C write failed" ->
  respects refused_and_logged (cerr_line line).
Proof.
  intros Hne w. split; [reflexivity | ]. exists [], [line]. cbn.
  rewrite app_nil_r. repeat split.
  destruct (string_dec line _); [contradiction | reflexivity].
Qed.

Ltac refused self Hfd :=
  repeat first
    [ apply (respects_ret refused_and_logged refused_and_logged_refl)
    | apply (readReg_refused_and_logged self _ Hfd)
    | apply (writeReg_refused_and_logged self _ _ Hfd)
    | apply other_line_refused_and_logged; discriminate
    | apply (respects_readIntFlags refused_and_logged self
               refused_and_logged_refl refused_and_logged_trans
               (fun reg => readReg_refused_and_logged self reg Hfd)
               (fun reg value => writeReg_refused_and_logged self reg value Hfd))
    | apply (respects_capture_loop refused_and_logged self
               refused_and_logged_refl refused_and_logged_trans
               (fun reg => readReg_refused_and_logged self reg Hfd))
    | apply (respects_bind refused_and_logged refused_and_logged_trans);
      [ | intros ? ]
    | match goal with
      | |- respects _ (if ?b then _ else _) => destruct b
      | |- respects _ (match ?x with _ => _ end) => destruct x
      end ].

(** On a negative descriptor every method with an accepted pin has each of
    its calls refused, and reported. *)
Lemma perform_refused_and_logged (self : MCP23017) (c : call) (w : World) :
  fd self < 0 -> pin_accepted c = true ->
  refused_and_logged w (snd (perform self c w)).
Proof.
  intros Hfd Hc. revert w. change (respects refused_and_logged (perform self c)).
  assert (Hrange : forall pin, (0 <=? pin) && (pin <=? 15) = true -> 0 <= pin <= 15).
  { intros pin H. apply andb_prop in H as [H1 H2].
    apply Z.leb_le in H1. apply Z.leb_le in H2. lia. }
  destruct c; cbn [perform pin_accepted] in *; try apply Hrange in Hc;
    unfold pinMode, pinWrite, pinRead, enableInt, intOutputMode,
      intTriggerMode, getInterruptFlags, getInterruptPins, isInterruptOnPin,
      getIntCapture, clearIntCapture, clearInterrupts, enableSlewRateControl,
      setSequentialOperation;
    try (apply (respects_bind refused_and_logged refused_and_logged_trans);
         [ | intros;
             apply (respects_ret refused_and_logged refused_and_logged_refl) ]);
    try (apply pinCheck_then; [exact Hc | cbn [negb]]);
    refused self Hfd.
Qed.

(** ** Lifecycle *)

(** C8, as the code has it.  When [open] answers a negative descriptor, or
    [ioctl] a negative result, the constructor prints one line on [std::cerr]
    (["Error: I2C write failed"] for [open], ["Error: I2C ioctl failed"] for
    [ioctl]), issues no [write] and no [read], leaves the registers alone and
    still returns an instance, holding whatever [open] answered.  Every later
    method with an accepted pin then hands a register address to [write] on
    that descriptor all the same; when the descriptor is negative each call
    the method issues is a [write] answered [-1], each is reported by its own
    line ["Error: I2C write failed"] on [std::cerr], and no register
    changes. *)
Theorem failed_open_is_logged_and_ignored
        (address : Z) (i2cDev : string) (w : World) :
  open_ret w < 0 \/ ioctl_ret w < 0 ->
  let dev := fst (MCP23017_ctor address i2cDev w) in
  let w0 := snd (MCP23017_ctor address i2cDev w) in
  fd dev = open_ret w
  /\ regs w0 = regs w
  /\ (exists calls,
        trace w0 = trace w ++ calls
        /\ forallb (fun c => negb (is_transfer c)) calls = true)
  /\ cerr w0 = cerr w ++ [if open_ret w <? 0
                          then "Error: I2C write failed"
                          else "Error: I2C ioctl failed"]
  /\ forall (c : call) (w2 : World),
       pin_accepted c = true ->
       (exists reg r rest,
          trace (snd (perform dev c w2))
          = trace w2 ++ sys_write (fd dev) [reg] r :: rest)
       /\ (fd dev < 0 ->
           nothing_got_through w2 (snd (perform dev c w2))
           /\ refused_and_logged w2 (snd (perform dev c w2))).
Proof.
  intros Hfail. cbv zeta.
  assert (E : MCP23017_ctor address i2cDev w
              = (mkMCP23017 (open_ret w),
                 log_cerr (if open_ret w <? 0
                           then "Error: I2C write failed"
                           else "Error: I2C ioctl failed")
                   (if open_ret w <? 0
                    then log_call (sys_open i2cDev (open_ret w)) w
                    else log_call (sys_ioctl (open_ret w) address (ioctl_ret w))
                           (log_call (sys_open i2cDev (open_ret w)) w)))).
  { unfold MCP23017_ctor, open_, ioctl_I2C_SLAVE. unfold_monad.
    destruct (Z.ltb_spec (open_ret w) 0) as [Hneg | Hpos]; [reflexivity | ].
    cbn. destruct (Z.ltb_spec (ioctl_ret w) 0); [reflexivity | lia]. }
  rewrite E. cbn [fst snd fd].
  split; [reflexivity | ]. split; [now destruct (open_ret w <? 0) | ].
  split; [ | split].
  - destruct (open_ret w <? 0); cbn; eexists;
      (split; [ rewrite <- ?app_assoc; reflexivity | reflexivity ]).
  - now destruct (open_ret w <? 0).
  - intros c w2 Hc. split; [now apply perform_issues_write | ].
    intros Hfd.
    set (dev := mkMCP23017 (open_ret w)) in *.
    split; [ | now apply perform_refused_and_logged].
    apply (respects_perform nothing_got_through dev
             (quiet_refl _) (quiet_trans _) (quiet_cerr _)
             (fun reg => readReg_refused dev reg Hfd)
             (fun reg value => writeReg_refused dev reg value Hfd)).
Qed.

Lemma failed_open_is_logged_and_ignored_witness :
  fd (fst (MCP23017_ctor 0x20 "/dev/i2c-1" unopened_world)) = -1
  /\ fd (fst (MCP23017_ctor 0x20 "/dev/i2c-1" unselected_world)) = 3
  /\ (let dev := fst (MCP23017_ctor 0x20 "/dev/i2c-1" unopened_world) in
      let w0 := snd (MCP23017_ctor 0x20 "/dev/i2c-1" unopened_world) in
      refused_and_logged w0 (snd (perform dev (call_pinWrite 0 HIGH) w0))).
Proof.
  split; [ | split].
  - apply (failed_open_is_logged_and_ignored 0x20 "/dev/i2c-1" unopened_world).
    left. reflexivity.
  - apply (failed_open_is_logged_and_ignored 0x20 "/dev/i2c-1" unselected_world).
    right. reflexivity.
  - cbv zeta.
    destruct (failed_open_is_logged_and_ignored 0x20 "/dev/i2c-1" unopened_world)
      as (_ & _ & _ & _ & P); [left; reflexivity | ].
    destruct (P (call_pinWrite 0 HIGH)
                (snd (MCP23017_ctor 0x20 "/dev/i2c-1" unopened_world)) eq_refl)
      as [_ L].
    apply L. reflexivity.
Defined.

(** C8 fails as stated: when [open] fails the constructor still returns an
    instance, holding descriptor -1, and [pinWrite(0, HIGH)] on it does not
    return at once: it calls [write] twice on that descriptor.  When only the
    address selection fails the instance holds a valid descriptor, and on a
    bus that answers the same call reads the latch and stores a byte in it. *)
Lemma failed_open_still_drives_the_handle :
  (let dev := fst (MCP23017_ctor 0x20 "/dev/i2c-1" unopened_world) in
   let w0 := snd (MCP23017_ctor 0x20 "/dev/i2c-1" unopened_world) in
   fd dev = -1
   /\ cerr w0 = ["Error: I2C write failed"]
   /\ trace w0 = [sys_open "/dev/i2c-1" (-1)]
   /\ trace (snd (pinWrite dev 0 HIGH w0))
      = trace w0 ++ [sys_write (-1) [OLATA] (-1);
                     sys_write (-1) [OLATA; 0x01] (-1)]
   /\ trace (snd (pinWrite dev 0 HIGH w0)) <> trace w0)
  /\ (let dev := fst (MCP23017_ctor 0x20 "/dev/i2c-1" unselected_world) in
      let w0 := snd (MCP23017_ctor 0x20 "/dev/i2c-1" unselected_world) in
      fd dev = 3
      /\ cerr w0 = ["Error: I2C ioctl failed"]
      /\ trace w0 = [sys_open "/dev/i2c-1" 3; sys_ioctl 3 0x20 (-1)]
      /\ trace (snd (pinWrite dev 0 HIGH w0))
         = trace w0 ++ [sys_write 3 [OLATA] 1; sys_read 3 1 1;
                        sys_write 3 [OLATA; 0xF1] 2]).
Proof.
  split; repeat split; try reflexivity. vm_compute. discriminate.
Qed.

(** * Beyond the claims *)

(** ** Register accesses on any bus *)

Lemma snd_seq {A B : Type} (m : M A) (k : M B) (w : World) :
  snd ((m ;; k) w) = snd (k (snd (m w))).
Proof. unfold bind. now destruct (m w). Qed.

(** A register read has two outcomes and no third: it yields the byte the
    register holds and prints nothing, or it yields zero and prints one error
    line.  In neither case does a register change. *)
Theorem readReg_outcomes (self : MCP23017) (reg : Z) (w : World) :
  let w' := snd (readReg self reg w) in
  regs w' = regs w
  /\ if read_throws self reg w
     then fst (readReg self reg w) = 0
          /\ cerr w' = cerr w ++ ["Error: I2C write failed"]
     else fst (readReg self reg w) = u8 (regs w reg)
          /\ cerr w' = cerr w.
Proof.
  cbv zeta. split; [apply readReg_regs | ].
  unfold read_throws.
  transfer_cases self w; rewrite ?Efd; cbn; auto.
Qed.

(** A register write has two outcomes and no third: the byte is stored, that
    register alone changes and nothing is printed, or no register changes and
    one error line is printed. *)
Theorem writeReg_outcomes (self : MCP23017) (reg value : Z) (w : World) :
  let w' := snd (writeReg self reg value w) in
  (regs w' = upd reg value (regs w) /\ cerr w' = cerr w
   /\ trace w' = trace w ++ [sys_write (fd self) [reg; value] 2])
  \/ (regs w' = regs w /\ cerr w' = cerr w ++ ["Error: I2C write failed"]
      /\ trace w' = trace w ++ [sys_write (fd self) [reg; value] (-1)]).
Proof.
  cbv zeta. transfer_cases self w; auto.
Qed.

(** ** Register accesses on a working bus *)

Lemma readReg_working (self : MCP23017) (reg : Z) (w : World) :
  healthy self w = true ->
  fst (readReg self reg w) = u8 (regs w reg)
  /\ healthy self (snd (readReg self reg w)) = true
  /\ regs (snd (readReg self reg w)) = regs w
  /\ cerr (snd (readReg self reg w)) = cerr w.
Proof.
  intros H. pose proof (healthy_after_read self reg w H) as Hh.
  rewrite readReg_healthy in * by exact H. repeat split. exact Hh.
Qed.

Lemma writeReg_working (self : MCP23017) (reg value : Z) (w : World) :
  healthy self w = true ->
  healthy self (snd (writeReg self reg value w)) = true
  /\ regs (snd (writeReg self reg value w)) = upd reg value (regs w)
  /\ cerr (snd (writeReg self reg value w)) = cerr w.
Proof.
  intros H. pose proof (healthy_after_write self reg value w H) as Hh.
  rewrite writeReg_healthy in * by exact H. repeat split. exact Hh.
Qed.

Lemma rmw_working (self : MCP23017) (reg : Z) (f : Z -> Z) (w : World) :
  healthy self w = true ->
  healthy self (snd (rmw self reg f w)) = true
  /\ regs (snd (rmw self reg f w)) = upd reg (f (u8 (regs w reg))) (regs w)
  /\ cerr (snd (rmw self reg f w)) = cerr w.
Proof.
  intros H. unfold rmw, bind.
  destruct (readReg_working self reg w H) as (Ev & Hh & Er & Ec).
  destruct (readReg self reg w) as [val w1]. cbn [fst snd] in *. subst val.
  destruct (writeReg_working self reg (f (u8 (regs w reg))) w1 Hh)
    as (Hh' & Er' & Ec').
  rewrite Er', Ec', Er, Ec. auto.
Qed.

(** ** Digital input *)

Lemma shifted_low_bit (val bit : Z) :
  0 <= bit -> negb (Z.land (Z.shiftr val bit) 1 =? 0) = Z.testbit val bit.
Proof.
  intros Hb. change 1 with (Z.ones 1). rewrite Z.land_ones by lia.
  change (2 ^ 1) with 2. rewrite <- Z.bit0_mod, Z.shiftr_spec by lia.
  rewrite Z.add_0_l. now destruct (Z.testbit val bit).
Qed.

(** For a pin in [0, 15], [pinRead] reads the input register of the pin's
    bank ([GPIOA] or [GPIOB]), does nothing else, and returns [HIGH] when bit
    [pin mod 8] of the byte read is set and [LOW] when it is not.  On a
    working bus that byte is the register's content.  When the read fails the
    result is [LOW]: a bus failure cannot be told from a low input. *)
Theorem pinRead_level_of_input (self : MCP23017) (pin : Z) (w : World) :
  0 <= pin <= 15 ->
  let reg := bank pin GPIOA GPIOB in
  let val := fst (readReg self reg w) in
  pinRead self pin w
  = (if Z.testbit val (pin mod 8) then HIGH else LOW, snd (readReg self reg w))
  /\ (healthy self w = true ->
      fst (pinRead self pin w)
      = if Z.testbit (regs w reg) (pin mod 8) then HIGH else LOW)
  /\ (read_throws self reg w = true -> fst (pinRead self pin w) = LOW).
Proof.
  intros Hp. cbv zeta.
  destruct (pin_bit pin Hp) as [Erem Hbit].
  set (reg := bank pin GPIOA GPIOB).
  assert (E : pinRead self pin w
              = (if Z.testbit (fst (readReg self reg w)) (pin mod 8)
                 then HIGH else LOW, snd (readReg self reg w))).
  { unfold pinRead, bind. rewrite pinCheck_accepts by exact Hp. cbn [negb].
    fold (bank pin GPIOA GPIOB). fold reg.
    destruct (readReg self reg w) as [val w1]. unfold ret. cbn [fst snd].
    rewrite Erem, shifted_low_bit by lia. reflexivity. }
  split; [exact E | ]. rewrite E. cbn [fst]. split.
  - intros H. destruct (readReg_working self reg w H) as (-> & _).
    rewrite u8_bits by lia. destruct (Z.ltb_spec (pin mod 8) 8); [reflexivity | lia].
  - intros Ht. destruct (readReg_thrown self reg w Ht) as [-> _].
    now rewrite Z.bits_0.
Qed.

Lemma pinRead_level_of_input_witness :
  fst (pinRead sample_dev 10
         (mkWorld 3 0 [] (upd GPIOB 0x04 sample_regs) 0 [] []))
  = HIGH
  /\ fst (pinRead sample_dev 10 flaky_world) = LOW.
Proof.
  split.
  - destruct (pinRead_level_of_input sample_dev 10
                (mkWorld 3 0 [] (upd GPIOB 0x04 sample_regs) 0 [] []))
      as (_ & H & _); [lia | ].
    rewrite H; reflexivity.
  - destruct (pinRead_level_of_input sample_dev 10 flaky_world)
      as (_ & _ & T); [lia | ].
    apply T. reflexivity.
Defined.

(** ** Single-register methods as read-modify-write *)

Lemma pinWrite_is_rmw (self : MCP23017) (pin : Z) (value : pin_Value) (w : World) :
  0 <= pin <= 15 -> value <> ERROR ->
  pinWrite self pin value w
  = rmw self (bank pin OLATA OLATB)
        (fun v => match value with
                  | HIGH => or_bit v (pin mod 8)
                  | _ => and_not_bit v (pin mod 8)
                  end) w.
Proof.
  intros Hp Hv. destruct (pin_bit pin Hp) as [Erem _].
  unfold pinWrite, rmw, bind. rewrite pinCheck_accepts by exact Hp. cbn [negb].
  fold (bank pin OLATA OLATB). rewrite Erem.
  destruct (readReg self _ w) as [val w1].
  destruct value; [reflexivity | reflexivity | contradiction].
Qed.

Lemma enableInt_is_rmw (self : MCP23017) (pin : Z) (enable : bool) (w : World) :
  0 <= pin <= 15 ->
  enableInt self pin enable w
  = rmw self (bank pin GPINTENA GPINTENB)
        (fun v => if enable then or_bit v (pin mod 8)
                  else and_not_bit v (pin mod 8)) w.
Proof.
  intros Hp. destruct (pin_bit pin Hp) as [Erem _].
  unfold enableInt, rmw, bind. rewrite pinCheck_accepts by exact Hp. cbn [negb].
  fold (bank pin GPINTENA GPINTENB). rewrite Erem. reflexivity.
Qed.

(** The byte [rmw] hands to [write] is [f] of the byte it read, for the
    register it read. *)
Lemma rmw_trace (self : MCP23017) (reg : Z) (f : Z -> Z) (w : World) :
  exists r,
    trace (snd (rmw self reg f w))
    = trace (snd (readReg self reg w))
      ++ [sys_write (fd self) [reg; f (fst (readReg self reg w))] r].
Proof.
  unfold rmw, bind. destruct (readReg self reg w) as [val w1]. cbn [fst snd].
  apply writeReg_trace.
Qed.

(** ** Interrupt enable *)

(** For a pin in [0, 15], [enableInt] reads the interrupt-enable register of
    the pin's bank and hands back to [write], for the same register, the byte
    read with bit [pin mod 8] set when enabling and cleared when disabling,
    every other bit as read.  On a working bus no other register changes. *)
Theorem enableInt_touches_one_bit
        (self : MCP23017) (pin : Z) (enable : bool) (w : World) :
  0 <= pin <= 15 ->
  let reg := bank pin GPINTENA GPINTENB in
  let val := fst (readReg self reg w) in
  let w' := snd (enableInt self pin enable w) in
  exists val' r,
    trace w' = trace (snd (readReg self reg w))
               ++ [sys_write (fd self) [reg; val'] r]
    /\ Z.testbit val' (pin mod 8) = enable
    /\ (forall i, 0 <= i -> i <> pin mod 8 -> Z.testbit val' i = Z.testbit val i)
    /\ (healthy self w = true ->
        val = u8 (regs w reg) /\ regs w' = upd reg val' (regs w)).
Proof.
  intros Hp. cbv zeta. destruct (pin_bit pin Hp) as [_ Hbit].
  rewrite enableInt_is_rmw by exact Hp.
  set (reg := bank pin GPINTENA GPINTENB).
  pose proof (readReg_range self reg w) as Rv.
  destruct (rmw_trace self reg
              (fun v => if enable then or_bit v (pin mod 8)
                        else and_not_bit v (pin mod 8)) w) as [r T].
  eexists _, r. split; [exact T | ]. cbv beta. repeat split.
  - destruct enable; byte_bits; now rewrite Z.eqb_refl.
  - intros i Hi Hne. destruct enable; byte_bits;
      destruct (Z.eqb_spec i (pin mod 8)); try contradiction; reflexivity.
  - now destruct (readReg_working self reg w H) as (-> & _).
  - destruct (rmw_working self reg
                (fun v => if enable then or_bit v (pin mod 8)
                          else and_not_bit v (pin mod 8)) w H) as (_ & -> & _).
    now destruct (readReg_working self reg w H) as (-> & _).
Qed.

Lemma enableInt_touches_one_bit_witness :
  regs (snd (enableInt sample_dev 12 true sample_world)) GPINTENB = 0x10
  /\ regs (snd (enableInt sample_dev 12 true sample_world)) OLATA = 0xF0.
Proof.
  destruct (enableInt_touches_one_bit sample_dev 12 true sample_world)
    as (val' & r & T & _ & _ & F); [lia | ].
  destruct (F eq_refl) as [_ ->].
  vm_compute in T. injection T as <- _. split; reflexivity.
Defined.

(** ** The control register *)

Ltac split_eqb :=
  repeat match goal with
         | |- context [?a =? ?b] => destruct (Z.eqb_spec a b); try lia
         end.

(** [enableSlewRateControl] hands back to [write] the control byte it read
    with bit 4 set when [enabled] and cleared otherwise;
    [setSequentialOperation] hands it back with bit 5 cleared when [enabled]
    and set otherwise.  Either leaves every other bit as read. *)
Theorem slew_and_sequential_bits (self : MCP23017) (enabled : bool) (w : World) :
  let val := fst (readReg self IOCON w) in
  let w1 := snd (readReg self IOCON w) in
  (exists val' r,
     trace (snd (enableSlewRateControl self enabled w))
     = trace w1 ++ [sys_write (fd self) [IOCON; val'] r]
     /\ Z.testbit val' 4 = enabled
     /\ forall i, 0 <= i -> i <> 4 -> Z.testbit val' i = Z.testbit val i)
  /\ (exists val' r,
        trace (snd (setSequentialOperation self enabled w))
        = trace w1 ++ [sys_write (fd self) [IOCON; val'] r]
        /\ Z.testbit val' 5 = negb enabled
        /\ forall i, 0 <= i -> i <> 5 -> Z.testbit val' i = Z.testbit val i).
Proof.
  cbv zeta. pose proof (readReg_range self IOCON w) as Rv. split.
  - destruct (rmw_trace self IOCON
                (fun v => if enabled then or_bit v 4 else and_not_bit v 4) w)
      as [r T].
    eexists _, r. split; [exact T | ]. cbv beta. split.
    + destruct enabled; byte_bits; reflexivity.
    + intros i Hi Hne. destruct enabled; byte_bits; split_eqb; reflexivity.
  - destruct (rmw_trace self IOCON
                (fun v => if enabled then and_not_bit v 5 else or_bit v 5) w)
      as [r T].
    eexists _, r. split; [exact T | ]. cbv beta. split.
    + destruct enabled; byte_bits; reflexivity.
    + intros i Hi Hne. destruct enabled; byte_bits; split_eqb; reflexivity.
Qed.

Lemma slew_and_sequential_bits_witness :
  exists r,
    trace (snd (enableSlewRateControl sample_dev true sample_world))
    = trace (snd (readReg sample_dev IOCON sample_world))
      ++ [sys_write 3 [IOCON; 0x10] r].
Proof.
  destruct (slew_and_sequential_bits sample_dev true sample_world)
    as [(val' & r & T & _) _].
  exists r. rewrite T. vm_compute in T. now injection T as <- _.
Defined.

(** The byte computed by [intOutputMode] from the byte [v] read. *)
Lemma intOutputMode_is_rmw (self : MCP23017) (w_INTPOL : pin_Value)
      (w_ODR w_MIRROR : bool) (w : World) :
  intOutputMode self w_INTPOL w_ODR w_MIRROR w
  = rmw self IOCON
        (fun v =>
           let v := if w_ODR then or_bit v 2 else and_not_bit v 2 in
           let v := if negb w_ODR
                    then match w_INTPOL with
                         | HIGH => or_bit v 1
                         | _ => and_not_bit v 1
                         end
                    else and_not_bit v 1 in
           if w_MIRROR then or_bit v 6 else and_not_bit v 6) w.
Proof. reflexivity. Qed.

(** [intOutputMode] changes bits 1, 2 and 6 of the control byte and no
    other: the byte it hands to [write] has every other bit as read, so the
    slew-rate and sequential-operation settings (bits 4 and 5) survive it. *)
Theorem intOutputMode_keeps_other_bits
        (self : MCP23017) (w_INTPOL : pin_Value) (w_ODR w_MIRROR : bool)
        (w : World) :
  let val := fst (readReg self IOCON w) in
  exists val' r,
    trace (snd (intOutputMode self w_INTPOL w_ODR w_MIRROR w))
    = trace (snd (readReg self IOCON w)) ++ [sys_write (fd self) [IOCON; val'] r]
    /\ forall i, 0 <= i -> i <> 1 -> i <> 2 -> i <> 6 ->
                 Z.testbit val' i = Z.testbit val i.
Proof.
  cbv zeta. pose proof (readReg_range self IOCON w) as Rv.
  rewrite intOutputMode_is_rmw.
  match goal with
  | |- context [rmw self IOCON ?f w] => destruct (rmw_trace self IOCON f w) as [r T]
  end.
  eexists _, r. split; [exact T | ]. cbv beta zeta.
  intros i Hi H1 H2 H6.
  destruct w_ODR, w_MIRROR, w_INTPOL; cbn [negb]; byte_bits; split_eqb;
    reflexivity.
Qed.

Lemma intOutputMode_keeps_other_bits_witness :
  exists r,
    trace (snd (intOutputMode sample_dev LOW true true
                  (mkWorld 3 0 [] (upd IOCON 0x30 sample_regs) 0 [] [])))
    = [sys_write 3 [IOCON] 1; sys_read 3 1 1; sys_write 3 [IOCON; 0x74] r].
Proof.
  destruct (intOutputMode_keeps_other_bits sample_dev LOW true true
              (mkWorld 3 0 [] (upd IOCON 0x30 sample_regs) 0 [] []))
    as (val' & r & T & _).
  exists r. rewrite T. vm_compute in T. now injection T as <- _.
Defined.

Lemma rmw_working_at (self : MCP23017) (reg : Z) (f : Z -> Z) (w : World) :
  healthy self w = true ->
  healthy self (snd (rmw self reg f w)) = true
  /\ cerr (snd (rmw self reg f w)) = cerr w
  /\ forall r, regs (snd (rmw self reg f w)) r
               = if r =? reg then f (u8 (regs w reg)) else regs w r.
Proof.
  intros H. destruct (rmw_working self reg f w H) as (Hh & Er & Ec).
  split; [exact Hh | ]. split; [exact Ec | ]. intros r. now rewrite Er.
Qed.

(** Three read-modify-writes of one register in a row, on a working bus. *)
Lemma rmw3_working (self : MCP23017) (reg : Z) (f g h : Z -> Z) (w : World) :
  healthy self w = true ->
  forall r,
    regs (snd ((rmw self reg f ;; rmw self reg g ;; rmw self reg h) w)) r
    = if r =? reg then h (u8 (g (u8 (f (u8 (regs w reg)))))) else regs w r.
Proof.
  intros H r. rewrite !snd_seq.
  destruct (rmw_working_at self reg f w H) as (H1 & _ & E1).
  destruct (rmw_working_at self reg g _ H1) as (H2 & _ & E2).
  destruct (rmw_working_at self reg h _ H2) as (_ & _ & E3).
  rewrite E3, (E2 reg), (E2 r), (E1 reg), (E1 r), !Z.eqb_refl.
  destruct (r =? reg); reflexivity.
Qed.

(** The three settings of the control register compose: on a working bus,
    after [enableSlewRateControl], [setSequentialOperation] and
    [intOutputMode] in this order the control register holds all five
    requested bits together, bits 0, 3 and 7 are what they were and no other
    register has changed; calling the three in the reverse order leaves the
    same registers. *)
Theorem control_settings_compose
        (self : MCP23017) (slew seq : bool) (w_INTPOL : pin_Value)
        (w_ODR w_MIRROR : bool) (w : World) :
  healthy self w = true ->
  let w' := snd ((enableSlewRateControl self slew ;;
                  setSequentialOperation self seq ;;
                  intOutputMode self w_INTPOL w_ODR w_MIRROR) w) in
  let w'' := snd ((intOutputMode self w_INTPOL w_ODR w_MIRROR ;;
                   setSequentialOperation self seq ;;
                   enableSlewRateControl self slew) w) in
  Z.testbit (regs w' IOCON) 1
  = (if w_ODR then false else match w_INTPOL with HIGH => true | _ => false end)
  /\ Z.testbit (regs w' IOCON) 2 = w_ODR
  /\ Z.testbit (regs w' IOCON) 4 = slew
  /\ Z.testbit (regs w' IOCON) 5 = negb seq
  /\ Z.testbit (regs w' IOCON) 6 = w_MIRROR
  /\ (forall i, i = 0 \/ i = 3 \/ i = 7 ->
        Z.testbit (regs w' IOCON) i = Z.testbit (regs w IOCON) i)
  /\ (forall r, r <> IOCON -> regs w' r = regs w r)
  /\ (forall r, regs w'' r = regs w' r).
Proof.
  intros H. cbv zeta.
  pose proof (u8_range (regs w IOCON)) as Rv.
  assert (B : forall i, 0 <= i < 8 ->
                        Z.testbit (u8 (regs w IOCON)) i = Z.testbit (regs w IOCON) i).
  { intros i Hi. rewrite u8_bits by lia.
    destruct (Z.ltb_spec i 8); [reflexivity | lia]. }
  assert (U1 : forall x bit, u8 (or_bit x bit) = or_bit x bit)
    by (intros; apply u8_small, bit_ops_range).
  assert (U2 : forall x bit, u8 (and_not_bit x bit) = and_not_bit x bit)
    by (intros; apply u8_small, bit_ops_range).
  set (f := fun v => if slew then or_bit v 4 else and_not_bit v 4).
  set (g := fun v => if seq then and_not_bit v 5 else or_bit v 5).
  set (h := fun v =>
              let v := if w_ODR then or_bit v 2 else and_not_bit v 2 in
              let v := if negb w_ODR
                       then match w_INTPOL with
                            | HIGH => or_bit v 1
                            | _ => and_not_bit v 1
                            end
                       else and_not_bit v 1 in
              if w_MIRROR then or_bit v 6 else and_not_bit v 6).
  change (enableSlewRateControl self slew) with (rmw self IOCON f).
  change (setSequentialOperation self seq) with (rmw self IOCON g).
  change (intOutputMode self w_INTPOL w_ODR w_MIRROR) with (rmw self IOCON h).
  pose proof (rmw3_working self IOCON f g h w H) as E1.
  pose proof (rmw3_working self IOCON h g f w H) as E2.
  subst f g h. cbv beta zeta in E1, E2.
  repeat split; intros; rewrite ?E2, ?E1, ?Z.eqb_refl.
  - destruct slew, seq, w_ODR, w_MIRROR, w_INTPOL; cbn [negb];
      rewrite ?U1, ?U2; byte_bits; reflexivity.
  - destruct slew, seq, w_ODR, w_MIRROR, w_INTPOL; cbn [negb];
      rewrite ?U1, ?U2; byte_bits; reflexivity.
  - destruct slew, seq, w_ODR, w_MIRROR, w_INTPOL; cbn [negb];
      rewrite ?U1, ?U2; byte_bits; reflexivity.
  - destruct slew, seq, w_ODR, w_MIRROR, w_INTPOL; cbn [negb];
      rewrite ?U1, ?U2; byte_bits; reflexivity.
  - destruct slew, seq, w_ODR, w_MIRROR, w_INTPOL; cbn [negb];
      rewrite ?U1, ?U2; byte_bits; reflexivity.
  - rewrite <- B by lia.
    destruct slew, seq, w_ODR, w_MIRROR, w_INTPOL; cbn [negb];
      rewrite ?U1, ?U2; byte_bits;
      destruct H0 as [-> | [-> | ->]]; reflexivity.
  - destruct (Z.eqb_spec r IOCON); [contradiction | reflexivity].
  - destruct (Z.eqb_spec r IOCON); [ | reflexivity].
    apply Z.bits_inj'. intros i Hi.
    destruct slew, seq, w_ODR, w_MIRROR, w_INTPOL; cbn [negb];
      rewrite ?U1, ?U2; byte_bits; split_eqb;
      reflexivity.
Qed.

Lemma control_settings_compose_witness :
  let w' := snd ((enableSlewRateControl sample_dev true ;;
                  setSequentialOperation sample_dev false ;;
                  intOutputMode sample_dev HIGH false true) sample_world) in
  Z.testbit (regs w' IOCON) 4 = true /\ Z.testbit (regs w' IOCON) 5 = true
  /\ Z.testbit (regs w' IOCON) 6 = true.
Proof.
  destruct (control_settings_compose sample_dev true false HIGH false true
              sample_world eq_refl) as (_ & _ & B4 & B5 & B6 & _).
  cbv zeta. auto.
Defined.

(** ** Sequences of pin writes *)

Lemma pin_bank_bit (p q : Z) :
  0 <= p <= 15 -> 0 <= q <= 15 -> p <> q ->
  (p <? 8) = (q <? 8) -> p mod 8 <> q mod 8.
Proof.
  intros Hp Hq Hne Hb.
  destruct (Z.ltb_spec p 8), (Z.ltb_spec q 8); try discriminate.
  - rewrite !Z.mod_small by lia. exact Hne.
  - replace p with (p - 8 + 1 * 8) by lia. replace q with (q - 8 + 1 * 8) by lia.
    rewrite !Z.mod_add, !Z.mod_small by lia. lia.
Qed.

(** The last write to a pin wins: on a working bus, writing a pin twice
    leaves every register as writing the second value alone does.  In
    particular [pinWrite(p, HIGH)] followed by [pinWrite(p, LOW)] leaves the
    latch as [pinWrite(p, LOW)] does, all other bits untouched. *)
Theorem pinWrite_last_wins
        (self : MCP23017) (pin : Z) (first second : pin_Value) (w : World) :
  0 <= pin <= 15 -> first <> ERROR -> second <> ERROR ->
  healthy self w = true ->
  forall r,
    regs (snd ((pinWrite self pin first ;; pinWrite self pin second) w)) r
    = regs (snd (pinWrite self pin second w)) r.
Proof.
  intros Hp H1 H2 H r. destruct (pin_bit pin Hp) as [_ Hbit].
  rewrite snd_seq, !pinWrite_is_rmw by assumption.
  set (reg := bank pin OLATA OLATB).
  match goal with
  | |- context [rmw self reg ?f w] =>
      destruct (rmw_working_at self reg f w H) as (Hh & _ & E1)
  end.
  match goal with
  | |- regs (snd (rmw self reg ?g ?x)) r = _ =>
      destruct (rmw_working_at self reg g x Hh) as (_ & _ & E2);
      destruct (rmw_working_at self reg g w H) as (_ & _ & E3)
  end.
  rewrite E2, E3, (E1 reg), (E1 r), Z.eqb_refl.
  destruct (Z.eqb_spec r reg); [ | reflexivity].
  pose proof (u8_range (regs w reg)) as Rv.
  apply Z.bits_inj'. intros i Hi.
  destruct first, second; try contradiction;
    rewrite ?(u8_small (or_bit _ _)), ?(u8_small (and_not_bit _ _))
      by apply bit_ops_range;
    byte_bits; split_eqb; reflexivity.
Qed.

Lemma pinWrite_last_wins_witness :
  regs (snd ((pinWrite sample_dev 5 HIGH ;; pinWrite sample_dev 5 LOW) sample_world))
       OLATA
  = 0xD0.
Proof.
  rewrite (pinWrite_last_wins sample_dev 5 HIGH LOW sample_world);
    [reflexivity | lia | discriminate | discriminate | reflexivity].
Defined.

(** Writes to different pins do not disturb each other: on a working bus,
    after writing [p] and then a different pin [q], the latch bit of [p] is
    still the value written to [p], the latch bit of [q] is the value written
    to [q], and the registers are the ones the opposite order leaves. *)
Theorem pinWrite_pins_independent
        (self : MCP23017) (p q : Z) (vp vq : pin_Value) (w : World) :
  0 <= p <= 15 -> 0 <= q <= 15 -> p <> q ->
  vp <> ERROR -> vq <> ERROR ->
  healthy self w = true ->
  let w' := snd ((pinWrite self p vp ;; pinWrite self q vq) w) in
  let w'' := snd ((pinWrite self q vq ;; pinWrite self p vp) w) in
  Z.testbit (regs w' (bank p OLATA OLATB)) (p mod 8)
  = match vp with HIGH => true | _ => false end
  /\ Z.testbit (regs w' (bank q OLATA OLATB)) (q mod 8)
     = match vq with HIGH => true | _ => false end
  /\ forall r, regs w'' r = regs w' r.
Proof.
  intros Hp Hq Hne Hvp Hvq H. cbv zeta.
  destruct (pin_bit p Hp) as [_ Hbp]. destruct (pin_bit q Hq) as [_ Hbq].
  pose proof (pin_bank_bit p q Hp Hq Hne) as Hbits.
  rewrite !snd_seq, !pinWrite_is_rmw by assumption.
  set (fp := fun v => match vp with
                      | HIGH => or_bit v (p mod 8)
                      | _ => and_not_bit v (p mod 8)
                      end).
  set (fq := fun v => match vq with
                      | HIGH => or_bit v (q mod 8)
                      | _ => and_not_bit v (q mod 8)
                      end).
  set (rp := bank p OLATA OLATB). set (rq := bank q OLATA OLATB).
  destruct (rmw_working_at self rp fp w H) as (Hh1 & _ & E1).
  destruct (rmw_working_at self rq fq _ Hh1) as (_ & _ & E2).
  destruct (rmw_working_at self rq fq w H) as (Hh3 & _ & E3).
  destruct (rmw_working_at self rp fp _ Hh3) as (_ & _ & E4).
  pose proof (u8_range (regs w rp)) as Rp.
  pose proof (u8_range (regs w rq)) as Rq.
  assert (Up : forall x, u8 (fp x) = fp x).
  { intros x. subst fp. cbv beta. destruct vp; apply u8_small, bit_ops_range. }
  assert (Uq : forall x, u8 (fq x) = fq x).
  { intros x. subst fq. cbv beta. destruct vq; apply u8_small, bit_ops_range. }
  assert (Same : rp = rq -> p mod 8 <> q mod 8).
  { intros E. apply Hbits. subst rp rq. unfold bank in E.
    destruct (p <? 8), (q <? 8); try reflexivity; discriminate. }
  destruct (Z.eq_dec rp rq) as [Eeq | Hdiff].
  - specialize (Same Eeq). rewrite <- Eeq in *. clearbody rp. clear Eeq rq.
    split; [ | split]; intros;
      rewrite ?E4, ?E2, ?(E3 rp), ?(E3 r), ?(E1 rp), ?(E1 r), ?Z.eqb_refl,
        ?Up, ?Uq.
    + subst fp fq. cbv beta.
      destruct vp, vq; try contradiction; byte_bits; split_eqb; reflexivity.
    + subst fp fq. cbv beta.
      destruct vp, vq; try contradiction; byte_bits; split_eqb; reflexivity.
    + destruct (Z.eqb_spec r rp); [ | reflexivity].
      apply Z.bits_inj'. intros i Hi. subst fp fq. cbv beta.
      destruct vp, vq; try contradiction; byte_bits; split_eqb; reflexivity.
  - assert (N1 : (rp =? rq) = false) by (apply Z.eqb_neq; exact Hdiff).
    assert (N2 : (rq =? rp) = false) by (apply Z.eqb_neq; congruence).
    split; [ | split]; intros;
      rewrite ?E4, ?E2, ?(E3 rp), ?(E3 r), ?(E1 rp), ?(E1 rq), ?(E1 r),
        ?Z.eqb_refl, ?N1, ?N2.
    + subst fp. cbv beta.
      destruct vp; try contradiction; byte_bits; split_eqb; reflexivity.
    + subst fq. cbv beta.
      destruct vq; try contradiction; byte_bits; split_eqb; reflexivity.
    + destruct (Z.eqb_spec r rp) as [-> | Hrp]; rewrite ?N1, ?Z.eqb_refl;
        [reflexivity | ].
      destruct (r =? rq); reflexivity.
Qed.

Lemma pinWrite_pins_independent_witness :
  let w' := snd ((pinWrite sample_dev 1 HIGH ;; pinWrite sample_dev 6 LOW)
                   sample_world) in
  Z.testbit (regs w' OLATA) 1 = true /\ Z.testbit (regs w' OLATA) 6 = false.
Proof.
  destruct (pinWrite_pins_independent sample_dev 1 6 HIGH LOW sample_world)
    as (B1 & B6 & _);
    [lia | lia | lia | discriminate | discriminate | reflexivity | ].
  cbv zeta. split; [exact B1 | exact B6].
Defined.

(** [pinWrite] with the value [ERROR] still reads the latch of the pin's
    bank, then prints ["Invalid input: pinWrite(pin, HIGH/LOW)"] and returns:
    no byte is stored and no register changes. *)
Theorem pinWrite_ERROR_reads_then_rejects (self : MCP23017) (pin : Z) (w : World) :
  0 <= pin <= 15 ->
  let w1 := snd (readReg self (bank pin OLATA OLATB) w) in
  pinWrite self pin ERROR w
  = (tt, log_cerr "Invalid input: pinWrite(pin, HIGH/LOW)" w1)
  /\ reads_only w (snd (pinWrite self pin ERROR w)).
Proof.
  intros Hp. cbv zeta.
  assert (E : pinWrite self pin ERROR w
              = (tt, log_cerr "Invalid input: pinWrite(pin, HIGH/LOW)"
                       (snd (readReg self (bank pin OLATA OLATB) w)))).
  { unfold pinWrite, bind. rewrite pinCheck_accepts by exact Hp. cbn [negb].
    fold (bank pin OLATA OLATB). now destruct (readReg self _ w). }
  split; [exact E | ]. rewrite E. cbn [snd].
  eapply quiet_trans; [apply readReg_reads_only | apply quiet_cerr].
Qed.

Lemma pinWrite_ERROR_reads_then_rejects_witness :
  regs (snd (pinWrite sample_dev 3 ERROR sample_world)) = regs sample_world
  /\ cerr (snd (pinWrite sample_dev 3 ERROR sample_world))
     = ["Invalid input: pinWrite(pin, HIGH/LOW)"].
Proof.
  destruct (pinWrite_ERROR_reads_then_rejects sample_dev 3 sample_world)
    as [E [R _]]; [lia | ].
  split; [exact R | rewrite E; reflexivity].
Defined.

(** ** Two-register methods as read-modify-write *)

Lemma pinMode_is_rmw2 (self : MCP23017) (pin : Z) (mode : pin_Mode) (w : World) :
  0 <= pin <= 15 ->
  pinMode self pin mode w
  = rmw2 self (bank pin IODIRA IODIRB) (bank pin GPPUA GPPUB)
         (fun d => match mode with
                   | OUTPUT => and_not_bit d (pin mod 8)
                   | _ => or_bit d (pin mod 8)
                   end)
         (fun u => match mode with
                   | INPUT_PULLUP => or_bit u (pin mod 8)
                   | _ => and_not_bit u (pin mod 8)
                   end) w.
Proof.
  intros Hp. destruct (pin_bit pin Hp) as [Erem _].
  unfold pinMode, rmw2, bind. rewrite pinCheck_accepts by exact Hp. cbn [negb].
  fold (bank pin IODIRA IODIRB) (bank pin GPPUA GPPUB). rewrite Erem.
  destruct (readReg self _ w) as [d w1]. destruct (readReg self _ w1) as [u w2].
  destruct mode; reflexivity.
Qed.

Lemma intTriggerMode_is_rmw2 (self : MCP23017) (pin : Z) (mode : int_Mode)
      (w : World) :
  0 <= pin <= 15 ->
  intTriggerMode self pin mode w
  = rmw2 self (bank pin INTCONA INTCONB) (bank pin DEFVALA DEFVALB)
         (fun c => match mode with
                   | CHANGE => and_not_bit c (pin mod 8)
                   | _ => or_bit c (pin mod 8)
                   end)
         (fun d => match mode with
                   | CHANGE => d
                   | RISING => or_bit d (pin mod 8)
                   | FALLING => and_not_bit d (pin mod 8)
                   end) w.
Proof.
  intros Hp. destruct (pin_bit pin Hp) as [Erem _].
  unfold intTriggerMode, rmw2, bind. rewrite pinCheck_accepts by exact Hp.
  cbn [negb]. fold (bank pin INTCONA INTCONB) (bank pin DEFVALA DEFVALB).
  rewrite Erem.
  destruct (readReg self _ w) as [c w1]. destruct (readReg self _ w1) as [d w2].
  destruct mode; reflexivity.
Qed.

Lemma rmw2_working (self : MCP23017) (r1 r2 : Z) (f1 f2 : Z -> Z) (w : World) :
  healthy self w = true ->
  healthy self (snd (rmw2 self r1 r2 f1 f2 w)) = true
  /\ cerr (snd (rmw2 self r1 r2 f1 f2 w)) = cerr w
  /\ forall r, regs (snd (rmw2 self r1 r2 f1 f2 w)) r
               = if r =? r2 then f2 (u8 (regs w r2))
                 else if r =? r1 then f1 (u8 (regs w r1))
                 else regs w r.
Proof.
  intros H. unfold rmw2, bind.
  destruct (readReg_working self r1 w H) as (Ea & H1 & R1 & C1).
  destruct (readReg self r1 w) as [a w1]. cbn [fst snd] in *. subst a.
  destruct (readReg_working self r2 w1 H1) as (Eb & H2 & R2 & C2).
  destruct (readReg self r2 w1) as [b w2]. cbn [fst snd] in *. subst b.
  destruct (writeReg_working self r1 (f1 (u8 (regs w r1))) w2 H2)
    as (H3 & R3 & C3).
  destruct (writeReg self r1 _ w2) as [[] w3]. cbn [fst snd] in *.
  destruct (writeReg_working self r2 (f2 (u8 (regs w1 r2))) w3 H3)
    as (H4 & R4 & C4).
  split; [exact H4 | ]. split; [congruence | ].
  intros r. rewrite R4, R3, R2, R1. reflexivity.
Qed.

Lemma rmw2_trace (self : MCP23017) (r1 r2 : Z) (f1 f2 : Z -> Z) (w : World) :
  let a := fst (readReg self r1 w) in
  let w1 := snd (readReg self r1 w) in
  let b := fst (readReg self r2 w1) in
  let w2 := snd (readReg self r2 w1) in
  exists ra rb,
    trace (snd (rmw2 self r1 r2 f1 f2 w))
    = trace w2 ++ [sys_write (fd self) [r1; f1 a] ra;
                   sys_write (fd self) [r2; f2 b] rb].
Proof.
  cbv zeta. unfold rmw2, bind.
  destruct (readReg self r1 w) as [a w1]. cbn [fst snd].
  destruct (readReg self r2 w1) as [b w2]. cbn [fst snd].
  destruct (writeReg_trace self r1 (f1 a) w2) as [ra Ta].
  destruct (writeReg self r1 (f1 a) w2) as [[] w3]. cbn [snd] in Ta.
  destruct (writeReg_trace self r2 (f2 b) w3) as [rb Tb].
  exists ra, rb. rewrite Tb, Ta, <- app_assoc. reflexivity.
Qed.

Lemma bank_pairs_differ (pin : Z) :
  bank pin IODIRA IODIRB <> bank pin GPPUA GPPUB
  /\ bank pin INTCONA INTCONB <> bank pin DEFVALA DEFVALB.
Proof. unfold bank. destruct (pin <? 8); split; discriminate. Qed.

(** ** Pin mode beyond the target bit *)

(** [pinMode] changes bit [pin mod 8] of the direction and pull-up bytes and
    no other: the two bytes it hands to [write] have every other bit as read.
    On a working bus no register other than these two changes, so the modes of
    the other pins of the bank, and everything else on the chip, stay as they
    were. *)
Theorem pinMode_touches_one_bit
        (self : MCP23017) (pin : Z) (mode : pin_Mode) (w : World) :
  0 <= pin <= 15 ->
  let regDir := bank pin IODIRA IODIRB in
  let regPup := bank pin GPPUA GPPUB in
  let dirVal := fst (readReg self regDir w) in
  let w1 := snd (readReg self regDir w) in
  let pupVal := fst (readReg self regPup w1) in
  let w2 := snd (readReg self regPup w1) in
  let w' := snd (pinMode self pin mode w) in
  exists dirVal' pupVal' r1 r2,
    trace w' = trace w2 ++ [sys_write (fd self) [regDir; dirVal'] r1;
                            sys_write (fd self) [regPup; pupVal'] r2]
    /\ (forall i, 0 <= i -> i <> pin mod 8 ->
          Z.testbit dirVal' i = Z.testbit dirVal i
          /\ Z.testbit pupVal' i = Z.testbit pupVal i)
    /\ (healthy self w = true ->
        forall r, r <> regDir -> r <> regPup -> regs w' r = regs w r).
Proof.
  intros Hp. cbv zeta. destruct (pin_bit pin Hp) as [_ Hbit].
  rewrite pinMode_is_rmw2 by exact Hp.
  set (regDir := bank pin IODIRA IODIRB). set (regPup := bank pin GPPUA GPPUB).
  pose proof (readReg_range self regDir w) as Rd.
  pose proof (readReg_range self regPup (snd (readReg self regDir w))) as Ru.
  match goal with
  | |- context [rmw2 self regDir regPup ?f ?g w] =>
      destruct (rmw2_trace self regDir regPup f g w) as (r1 & r2 & T);
      pose proof (rmw2_working self regDir regPup f g w) as W
  end.
  eexists _, _, r1, r2. split; [exact T | ]. cbv beta. split.
  - intros i Hi Hne. destruct mode; byte_bits; split_eqb; auto.
  - intros H r Hd Hu. destruct (W H) as (_ & _ & E). rewrite E.
    destruct (Z.eqb_spec r regPup); [contradiction | ].
    destruct (Z.eqb_spec r regDir); [contradiction | reflexivity].
Qed.

Lemma pinMode_touches_one_bit_witness :
  regs (snd (pinMode sample_dev 9 OUTPUT sample_world)) OLATA = 0xF0
  /\ regs (snd (pinMode sample_dev 9 OUTPUT sample_world)) IODIRA = 0.
Proof.
  destruct (pinMode_touches_one_bit sample_dev 9 OUTPUT sample_world)
    as (d & u & r1 & r2 & _ & _ & F); [lia | ].
  split; rewrite (F eq_refl) by discriminate; reflexivity.
Defined.



(** ** Sequences of trigger modes *)

(** On a working bus, after two calls of [intTriggerMode] on the same pin the
    control bit is the one the second mode asks for.  The compare bit is the
    one the second mode asks for when that is [RISING] or [FALLING]; a second
    mode [CHANGE] leaves the compare bit as the first call left it, set after
    [RISING], cleared after [FALLING]. *)
Theorem intTriggerMode_twice
        (self : MCP23017) (pin : Z) (first second : int_Mode) (w : World) :
  0 <= pin <= 15 ->
  healthy self w = true ->
  let w' := snd ((intTriggerMode self pin first ;;
                  intTriggerMode self pin second) w) in
  Z.testbit (regs w' (bank pin INTCONA INTCONB)) (pin mod 8)
  = match second with CHANGE => false | _ => true end
  /\ Z.testbit (regs w' (bank pin DEFVALA DEFVALB)) (pin mod 8)
     = match second, first with
       | RISING, _ => true
       | FALLING, _ => false
       | CHANGE, RISING => true
       | CHANGE, FALLING => false
       | CHANGE, CHANGE =>
           Z.testbit (regs w (bank pin DEFVALA DEFVALB)) (pin mod 8)
       end.
Proof.
  intros Hp H. cbv zeta. destruct (pin_bit pin Hp) as [_ Hbit].
  destruct (bank_pairs_differ pin) as [_ Hne].
  rewrite snd_seq, !intTriggerMode_is_rmw2 by exact Hp.
  set (regC := bank pin INTCONA INTCONB) in *.
  set (regD := bank pin DEFVALA DEFVALB) in *.
  assert (N1 : (regC =? regD) = false) by now apply Z.eqb_neq.
  assert (N2 : (regD =? regC) = false) by (apply Z.eqb_neq; congruence).
  match goal with
  | |- context [rmw2 self regC regD ?f ?g w] =>
      destruct (rmw2_working self regC regD f g w H) as (Hh & _ & E1)
  end.
  match goal with
  | |- context [rmw2 self regC regD ?f ?g (snd ?x)] =>
      destruct (rmw2_working self regC regD f g (snd x) Hh) as (_ & _ & E2)
  end.
  pose proof (u8_range (regs w regC)) as Rc.
  pose proof (u8_range (regs w regD)) as Rd.
  assert (B : Z.testbit (u8 (regs w regD)) (pin mod 8)
              = Z.testbit (regs w regD) (pin mod 8)).
  { rewrite u8_bits by lia.
    destruct (Z.ltb_spec (pin mod 8) 8); [reflexivity | lia]. }
  split.
  - rewrite E2, N1, Z.eqb_refl, (E1 regC), N1, Z.eqb_refl.
    destruct first, second;
      rewrite ?(u8_small (or_bit _ _)), ?(u8_small (and_not_bit _ _))
        by apply bit_ops_range;
      byte_bits; now rewrite Z.eqb_refl.
  - rewrite E2, Z.eqb_refl, (E1 regD), Z.eqb_refl.
    destruct first, second;
      rewrite ?(u8_small (or_bit _ _)), ?(u8_small (and_not_bit _ _)),
        ?(u8_small (u8 _)) by (try apply bit_ops_range; apply u8_range);
      byte_bits; rewrite ?Z.eqb_refl; auto.
Qed.

Lemma intTriggerMode_twice_witness :
  let w' := snd ((intTriggerMode sample_dev 3 RISING ;;
                  intTriggerMode sample_dev 3 CHANGE) sample_world) in
  Z.testbit (regs w' INTCONA) 3 = false /\ Z.testbit (regs w' DEFVALA) 3 = true.
Proof.
  destruct (intTriggerMode_twice sample_dev 3 RISING CHANGE sample_world)
    as [C D]; [lia | reflexivity | ].
  cbv zeta. split; [exact C | exact D].
Defined.

(** ** Bulk clear *)

(** [clearInterrupts] reads [GPIOA], then [GPIOB], then hands [{INTFA, 0}]
    and [{INTFB, 0}] to [write], on any bus.  On a working bus these are six
    successful calls in this order, after which both flag registers hold zero
    and every other register holds what it held. *)
Theorem clearInterrupts_effect (self : MCP23017) (w : World) :
  let w2 := snd (readReg self GPIOB (snd (readReg self GPIOA w))) in
  let w' := snd (clearInterrupts self w) in
  (exists r1 r2,
     trace w' = trace w2 ++ [sys_write (fd self) [INTFA; 0x00] r1;
                             sys_write (fd self) [INTFB; 0x00] r2])
  /\ (healthy self w = true ->
      trace w' = trace w ++ [sys_write (fd self) [GPIOA] 1;
                             sys_read (fd self) 1 1;
                             sys_write (fd self) [GPIOB] 1;
                             sys_read (fd self) 1 1;
                             sys_write (fd self) [INTFA; 0x00] 2;
                             sys_write (fd self) [INTFB; 0x00] 2]
      /\ cerr w' = cerr w
      /\ forall r, regs w' r
                   = if (r =? INTFA) || (r =? INTFB) then 0 else regs w r).
Proof.
  cbv zeta. split.
  - unfold clearInterrupts, bind.
    destruct (readReg self GPIOA w) as [a w1]. cbn [fst snd].
    destruct (readReg self GPIOB w1) as [b w2]. cbn [fst snd].
    destruct (writeReg_trace self INTFA 0 w2) as [r1 T1].
    destruct (writeReg self INTFA 0 w2) as [[] w3]. cbn [snd] in T1.
    destruct (writeReg_trace self INTFB 0 w3) as [r2 T2].
    exists r1, r2. rewrite T2, T1, <- app_assoc. reflexivity.
  - intros H. unfold clearInterrupts, bind.
    pose proof (healthy_after_read self GPIOA w H) as H1.
    rewrite (readReg_healthy self GPIOA w H) in *. cbn [snd] in H1.
    pose proof (healthy_after_read self GPIOB _ H1) as H2.
    rewrite (readReg_healthy self GPIOB _ H1) in *. cbn [snd] in H2.
    pose proof (healthy_after_write self INTFA 0 _ H2) as H3.
    rewrite (writeReg_healthy self INTFA 0 _ H2) in *. cbn [snd] in H3.
    rewrite (writeReg_healthy self INTFB 0 _ H3). cbn [snd].
    split; [cbn; rewrite <- !app_assoc; reflexivity | ].
    split; [reflexivity | ].
    intros r. cbn. destruct (r =? INTFB) eqn:EB.
    + now rewrite orb_true_r.
    + rewrite orb_false_r. now destruct (r =? INTFA).
Qed.

Lemma clearInterrupts_effect_witness :
  regs (snd (clearInterrupts sample_dev sample_world)) INTFA = 0
  /\ regs (snd (clearInterrupts sample_dev sample_world)) INTFB = 0
  /\ regs (snd (clearInterrupts sample_dev sample_world)) OLATA = 0xF0.
Proof.
  destruct (clearInterrupts_effect sample_dev sample_world) as [_ F].
  destruct (F eq_refl) as (_ & _ & R). rewrite !R. repeat split.
Defined.

(** ** The views of the interrupt flags *)

Lemma flagged_pins_filter (flags : Z) (n : nat) (pin : Z) :
  0 <= pin ->
  flagged_pins flags n pin = filter (Z.testbit flags) (pin_range n pin).
Proof.
  revert pin. induction n as [ | n IH]; intros pin Hp;
    cbn [flagged_pins pin_range filter]; [reflexivity | ].
  rewrite mask_test_bit, IH by lia.
  now destruct (Z.testbit flags pin).
Qed.

Lemma all_pins_In (pin : Z) : In pin all_pins <-> 0 <= pin <= 15.
Proof.
  split.
  - intros H. apply pin_range_bounds in H. lia.
  - intros H.
    assert (H16 : pin = 0 \/ pin = 1 \/ pin = 2 \/ pin = 3 \/ pin = 4
                  \/ pin = 5 \/ pin = 6 \/ pin = 7 \/ pin = 8 \/ pin = 9
                  \/ pin = 10 \/ pin = 11 \/ pin = 12 \/ pin = 13
                  \/ pin = 14 \/ pin = 15) by lia.
    cbn. intuition auto.
Qed.

Lemma getInterruptPins_run (self : MCP23017) (clear : bool) (w : World) :
  getInterruptPins self clear w
  = (filter (Z.testbit (fst (getInterruptFlags self clear w))) all_pins,
     snd (getInterruptFlags self clear w)).
Proof.
  unfold getInterruptPins, getInterruptFlags, bind.
  destruct (readIntFlags self clear w) as [flags w1]. unfold ret.
  rewrite flagged_pins_filter by lia. reflexivity.
Qed.

Lemma flagged_In (flags pin : Z) :
  In pin (filter (Z.testbit flags) all_pins)
  <-> 0 <= pin <= 15 /\ Z.testbit flags pin = true.
Proof. rewrite filter_In, all_pins_In. reflexivity. Qed.

Lemma getInterruptFlags_value (self : MCP23017) (clear : bool) (w : World) :
  fst (getInterruptFlags self clear w)
  = assemble16 (fst (readReg self INTFB (snd (readReg self INTFA w))))
               (fst (readReg self INTFA w)).
Proof.
  unfold getInterruptFlags, readIntFlags.
  unfold bind at 1. destruct (readReg self INTFA w) as [a w1].
  unfold bind at 1. cbn [fst snd]. destruct (readReg self INTFB w1) as [b w2].
  apply fst_then_ret.
Qed.

(** [getInterruptPins] is [getInterruptFlags] decoded: it leaves the world
    [getInterruptFlags] leaves and returns the pins of [0 .. 15] whose bit is
    set in the flags that call returns, each once, in ascending order. *)
Theorem getInterruptPins_decodes (self : MCP23017) (clear : bool) (w : World) :
  let flags := fst (getInterruptFlags self clear w) in
  let pins := fst (getInterruptPins self clear w) in
  snd (getInterruptPins self clear w) = snd (getInterruptFlags self clear w)
  /\ pins = filter (Z.testbit flags) all_pins
  /\ StronglySorted Z.lt pins
  /\ (forall pin, In pin pins <-> 0 <= pin <= 15 /\ Z.testbit flags pin = true).
Proof.
  cbv zeta. rewrite getInterruptPins_run. cbn [fst snd].
  split; [reflexivity | ]. split; [reflexivity | ]. split.
  - apply filter_sorted, pin_range_sorted.
  - intros pin. apply flagged_In.
Qed.

Lemma getInterruptPins_decodes_witness :
  fst (getInterruptPins sample_dev true sample_world) = [0; 10]
  /\ (In 10 (fst (getInterruptPins sample_dev true sample_world))
      <-> 0 <= 10 <= 15
          /\ Z.testbit (fst (getInterruptFlags sample_dev true sample_world)) 10
             = true).
Proof.
  destruct (getInterruptPins_decodes sample_dev true sample_world)
    as (_ & E & _ & M).
  split; [rewrite E; reflexivity | apply M].
Defined.

(** The three views agree: for a pin in [0, 15], [isInterruptOnPin] leaves
    the world [getInterruptFlags] leaves, answers with bit [pin] of the flags
    that call returns, and answers [true] exactly when the pin is in the list
    [getInterruptPins] returns.  The bit is bit [pin mod 8] of the flag byte
    read for the pin's bank. *)
Theorem isInterruptOnPin_agrees
        (self : MCP23017) (pin : Z) (clear : bool) (w : World) :
  0 <= pin <= 15 ->
  let a := fst (readReg self INTFA w) in
  let b := fst (readReg self INTFB (snd (readReg self INTFA w))) in
  snd (isInterruptOnPin self pin clear w) = snd (getInterruptFlags self clear w)
  /\ fst (isInterruptOnPin self pin clear w)
     = Z.testbit (fst (getInterruptFlags self clear w)) pin
  /\ (fst (isInterruptOnPin self pin clear w) = true
      <-> In pin (fst (getInterruptPins self clear w)))
  /\ fst (isInterruptOnPin self pin clear w)
     = Z.testbit (if pin <? 8 then a else b) (pin mod 8).
Proof.
  intros Hp. cbv zeta.
  assert (E : isInterruptOnPin self pin clear w
              = (Z.testbit (fst (getInterruptFlags self clear w)) pin,
                 snd (getInterruptFlags self clear w))).
  { unfold isInterruptOnPin, getInterruptFlags, bind.
    rewrite pinCheck_accepts by exact Hp. cbn [negb].
    destruct (readIntFlags self clear w) as [flags w1]. unfold ret.
    now rewrite mask_test_bit by lia. }
  rewrite E. cbn [fst snd]. split; [reflexivity | ]. split; [reflexivity | ].
  split.
  - rewrite getInterruptPins_run. cbn [fst]. rewrite flagged_In.
    intuition auto.
  - pose proof (readReg_range self INTFA w) as Ra.
    destruct (readReg self INTFA w) as [a w1] eqn:Ea. cbn [fst snd] in *.
    pose proof (readReg_range self INTFB w1) as Rb.
    destruct (readReg self INTFB w1) as [b w2] eqn:Eb. cbn [fst snd] in *.
    rewrite getInterruptFlags_value, Ea. cbn [fst snd]. rewrite Eb. cbn [fst].
    rewrite assemble16_bits by lia.
    destruct (Z.ltb_spec pin 8) as [Hlo | Hhi].
    + now rewrite Z.mod_small by lia.
    + f_equal. replace pin with (pin - 8 + 1 * 8) at 2 by lia.
      rewrite Z.mod_add, Z.mod_small by lia. reflexivity.
Qed.

Lemma isInterruptOnPin_agrees_witness :
  fst (isInterruptOnPin sample_dev 10 false sample_world) = true
  /\ In 10 (fst (getInterruptPins sample_dev false sample_world)).
Proof.
  destruct (isInterruptOnPin_agrees sample_dev 10 false sample_world)
    as (_ & B & M & _); [lia | ].
  assert (T : fst (isInterruptOnPin sample_dev 10 false sample_world) = true)
    by (rewrite B; reflexivity).
  split; [exact T | now apply M].
Defined.

(** ** What the methods never do *)

Lemma readReg_quiet_reads (self : MCP23017) (reg : Z) :
  respects reads_only (readReg self reg).
Proof. intros w. apply readReg_reads_only. Qed.

Ltac reads_nothing_else :=
  repeat first
    [ apply (respects_ret reads_only (quiet_refl _))
    | apply readReg_quiet_reads
    | apply (respects_cerr_line reads_only (quiet_cerr _))
    | apply (respects_pinCheck reads_only (quiet_refl _) (quiet_trans _)
               (quiet_cerr _))
    | apply (respects_bind reads_only (quiet_trans _)); [ | intros ? ]
    | match goal with
      | |- respects _ (if ?b then _ else _) => destruct b
      | |- respects _ (match ?x with _ => _ end) => destruct x
      end ].

(** The query methods store nothing: for every pin, accepted or not, and on
    any bus, [pinRead], [clearIntCapture], and with [clear] false
    [getInterruptFlags], [getInterruptPins] and [isInterruptOnPin] issue no
    two-byte [write] and leave the register file as it was. *)
Theorem queries_store_nothing (self : MCP23017) (pin : Z) (w : World) :
  reads_only w (snd (pinRead self pin w))
  /\ reads_only w (snd (clearIntCapture self pin w))
  /\ reads_only w (snd (getInterruptFlags self false w))
  /\ reads_only w (snd (getInterruptPins self false w))
  /\ reads_only w (snd (isInterruptOnPin self pin false w)).
Proof.
  assert (F : respects reads_only (readIntFlags self false))
    by (unfold readIntFlags; reads_nothing_else).
  split; [ | split; [ | split; [ | split]]].
  - revert w. change (respects reads_only (pinRead self pin)).
    unfold pinRead. reads_nothing_else.
  - revert w. change (respects reads_only (clearIntCapture self pin)).
    unfold clearIntCapture. reads_nothing_else.
  - apply F.
  - revert w. change (respects reads_only (getInterruptPins self false)).
    unfold getInterruptPins. reads_nothing_else.
  - revert w. change (respects reads_only (isInterruptOnPin self pin false)).
    unfold isInterruptOnPin. reads_nothing_else.
Qed.

Lemma only_calls_refl (P : syscall -> bool) (w : World) : only_calls P w w.
Proof. exists []. now rewrite app_nil_r. Qed.

Lemma only_calls_trans (P : syscall -> bool) (w1 w2 w3 : World) :
  only_calls P w1 w2 -> only_calls P w2 w3 -> only_calls P w1 w3.
Proof.
  intros (c1 & T1 & F1) (c2 & T2 & F2). exists (c1 ++ c2).
  rewrite T2, T1, app_assoc. split; [reflexivity | ].
  now rewrite forallb_app, F1, F2.
Qed.

Lemma only_calls_cerr (P : syscall -> bool) (line : string) (w : World) :
  only_calls P w (log_cerr line w).
Proof. exists []. cbn. now rewrite app_nil_r. Qed.

(** No method opens a device, selects an address or uses a descriptor other
    than the one its instance holds: every system call any method issues, with
    any arguments and on any bus, is a [write] or a [read] on [fd]. *)
Theorem methods_use_own_descriptor (self : MCP23017) (c : call) (w : World) :
  only_calls (on_descriptor (fd self)) w (snd (perform self c w)).
Proof.
  apply (respects_perform (only_calls (on_descriptor (fd self))) self
           (only_calls_refl _) (only_calls_trans _) (only_calls_cerr _)).
  - intros reg w0.
    destruct (readReg_trace self reg w0) as (r & rest & T & [-> | [r' ->]]);
      eexists; (split; [exact T | ]); cbn; now rewrite !Z.eqb_refl.
  - intros reg value w0.
    destruct (writeReg_trace self reg value w0) as [r T].
    eexists. split; [exact T | ]. cbn. now rewrite Z.eqb_refl.
Qed.

(** ** Silence on success *)

Lemma silent_refl (self : MCP23017) (w : World) : silent self w w.
Proof. intros H. auto. Qed.

Lemma silent_trans (self : MCP23017) (w1 w2 w3 : World) :
  silent self w1 w2 -> silent self w2 w3 -> silent self w1 w3.
Proof.
  intros S1 S2 H. destruct (S1 H) as [H2 C1]. destruct (S2 H2) as [H3 C2].
  split; [exact H3 | congruence].
Qed.

Lemma readReg_silent (self : MCP23017) (reg : Z) :
  respects (silent self) (readReg self reg).
Proof.
  intros w H. destruct (readReg_working self reg w H) as (_ & Hh & _ & C). auto.
Qed.

Lemma writeReg_silent (self : MCP23017) (reg value : Z) :
  respects (silent self) (writeReg self reg value).
Proof.
  intros w H. destruct (writeReg_working self reg value w H) as (Hh & _ & C). auto.
Qed.

Ltac stays_silent self :=
  repeat first
    [ apply (respects_ret (silent self) (silent_refl self))
    | apply readReg_silent
    | apply writeReg_silent
    | apply (respects_readIntFlags (silent self) self (silent_refl self)
               (silent_trans self) (readReg_silent self) (writeReg_silent self))
    | apply (respects_capture_loop (silent self) self (silent_refl self)
               (silent_trans self) (readReg_silent self))
    | apply (respects_bind (silent self) (silent_trans self)); [ | intros ? ]
    | match goal with
      | |- respects _ (if ?b then _ else _) => destruct b
      | |- respects _ (match ?x with _ => _ end) => destruct x
      end ].

(** ** Modes outside the enumerators *)

Lemma pinMode_raw_enumerator (self : MCP23017) (pin : Z) (mode : pin_Mode)
      (w : World) :
  pinMode_raw self pin (pin_Mode_code mode) w = pinMode self pin mode w.
Proof.
  unfold pinMode_raw, pinMode, bind.
  destruct (pinCheck pin w) as [[ | ] w0]; cbn [negb]; [ | reflexivity].
  destruct (readReg self _ w0) as [d w1]. destruct (readReg self _ w1) as [u w2].
  destruct mode; reflexivity.
Qed.

Lemma intTriggerMode_raw_enumerator (self : MCP23017) (pin : Z) (mode : int_Mode)
      (w : World) :
  intTriggerMode_raw self pin (int_Mode_code mode) w
  = intTriggerMode self pin mode w.
Proof.
  unfold intTriggerMode_raw, intTriggerMode, bind.
  destruct (pinCheck pin w) as [[ | ] w0]; cbn [negb]; [ | reflexivity].
  destruct (readReg self _ w0) as [c w1]. destruct (readReg self _ w1) as [d w2].
  destruct mode; reflexivity.
Qed.

Lemma pinMode_raw_default (self : MCP23017) (pin mode : Z) (w : World) :
  0 <= pin <= 15 -> mode <> 0 -> mode <> 1 -> mode <> 3 ->
  pinMode_raw self pin mode w
  = (tt, log_cerr "Invalid input: pinMode(pin, INPUT/OUTPUT/INPUT_PULLUP)"
           (snd (readReg self (bank pin GPPUA GPPUB)
                   (snd (readReg self (bank pin IODIRA IODIRB) w))))).
Proof.
  intros Hp H0 H1 H3. unfold pinMode_raw, bind.
  rewrite pinCheck_accepts by exact Hp. cbn [negb pin_Mode_code].
  fold (bank pin IODIRA IODIRB) (bank pin GPPUA GPPUB).
  destruct (readReg self _ w) as [d w1]. cbn [snd].
  destruct (readReg self _ w1) as [u w2]. cbn [snd].
  destruct (Z.eqb_spec mode 0); [contradiction | ].
  destruct (Z.eqb_spec mode 1); [contradiction | ].
  destruct (Z.eqb_spec mode 3); [contradiction | reflexivity].
Qed.

Lemma intTriggerMode_raw_default (self : MCP23017) (pin mode : Z) (w : World) :
  0 <= pin <= 15 -> mode <> 0 -> mode <> 1 -> mode <> 2 ->
  intTriggerMode_raw self pin mode w
  = (tt, log_cerr "Invalid input: pinInterrupt(pin, CHANGE/RISING/FALLING)"
           (snd (readReg self (bank pin DEFVALA DEFVALB)
                   (snd (readReg self (bank pin INTCONA INTCONB) w))))).
Proof.
  intros Hp H0 H1 H2. unfold intTriggerMode_raw, bind.
  rewrite pinCheck_accepts by exact Hp. cbn [negb int_Mode_code].
  fold (bank pin INTCONA INTCONB) (bank pin DEFVALA DEFVALB).
  destruct (readReg self _ w) as [c w1]. cbn [snd].
  destruct (readReg self _ w1) as [d w2]. cbn [snd].
  destruct (Z.eqb_spec mode 2); [contradiction | ].
  destruct (Z.eqb_spec mode 1); [contradiction | ].
  destruct (Z.eqb_spec mode 0); [contradiction | reflexivity].
Qed.

(** On a working bus a method prints nothing on [std::cerr] and leaves the
    bus working when its pin is in [0, 15], its mode is one of the declared
    enumerators and, for [pinWrite], its value is [HIGH] or [LOW].  On the
    integer values of the enumerators [pinMode] and [intTriggerMode] with
    their [default] branches are the methods above.  A mode value outside the
    enumerators is the exception: [pinMode] and [intTriggerMode] then print
    their ["Invalid input"] line, on a working bus too. *)
Theorem accepted_call_is_silent (self : MCP23017) (c : call) (w : World) :
  arguments_accepted c = true ->
  healthy self w = true ->
  (healthy self (snd (perform self c w)) = true
   /\ cerr (snd (perform self c w)) = cerr w)
  /\ (forall pin mode,
        pinMode_raw self pin (pin_Mode_code mode) w = pinMode self pin mode w)
  /\ (forall pin mode,
        intTriggerMode_raw self pin (int_Mode_code mode) w
        = intTriggerMode self pin mode w)
  /\ (forall pin mode, 0 <= pin <= 15 -> mode <> 0 -> mode <> 1 -> mode <> 3 ->
        cerr (snd (pinMode_raw self pin mode w))
        = cerr w ++ ["Invalid input: pinMode(pin, INPUT/OUTPUT/INPUT_PULLUP)"])
  /\ (forall pin mode, 0 <= pin <= 15 -> mode <> 0 -> mode <> 1 -> mode <> 2 ->
        cerr (snd (intTriggerMode_raw self pin mode w))
        = cerr w
          ++ ["Invalid input: pinInterrupt(pin, CHANGE/RISING/FALLING)"]).
Proof.
  intros Hc H. split; [ | split; [ | split; [ | split]]].
  - revert w H. change (respects (silent self) (perform self c)).
    unfold arguments_accepted in Hc. apply andb_prop in Hc as [Hpin Hval].
    assert (Hrange : forall pin,
               (0 <=? pin) && (pin <=? 15) = true -> 0 <= pin <= 15).
    { intros pin H. apply andb_prop in H as [H1 H2].
      apply Z.leb_le in H1. apply Z.leb_le in H2. lia. }
    destruct c; cbn [perform pin_accepted] in *; try apply Hrange in Hpin;
      unfold pinMode, pinWrite, pinRead, enableInt, intOutputMode,
        intTriggerMode, getInterruptFlags, getInterruptPins, isInterruptOnPin,
        getIntCapture, clearIntCapture, clearInterrupts, enableSlewRateControl,
        setSequentialOperation;
      try (apply (respects_bind (silent self) (silent_trans self));
           [ | intros; apply (respects_ret (silent self) (silent_refl self)) ]);
      try (apply pinCheck_then; [exact Hpin | cbn [negb]]);
      try (destruct value; try discriminate);
      stays_silent self.
  - intros pin mode. apply pinMode_raw_enumerator.
  - intros pin mode. apply intTriggerMode_raw_enumerator.
  - intros pin mode Hp H0 H1 H3.
    rewrite pinMode_raw_default by assumption. cbn [snd].
    destruct (readReg_working self (bank pin IODIRA IODIRB) w H)
      as (_ & H' & _ & C1).
    destruct (readReg_working self (bank pin GPPUA GPPUB) _ H')
      as (_ & _ & _ & C2).
    cbn [cerr log_cerr]. now rewrite C2, C1.
  - intros pin mode Hp H0 H1 H2.
    rewrite intTriggerMode_raw_default by assumption. cbn [snd].
    destruct (readReg_working self (bank pin INTCONA INTCONB) w H)
      as (_ & H' & _ & C1).
    destruct (readReg_working self (bank pin DEFVALA DEFVALB) _ H')
      as (_ & _ & _ & C2).
    cbn [cerr log_cerr]. now rewrite C2, C1.
Qed.

Lemma accepted_call_is_silent_witness :
  cerr (snd (perform sample_dev (call_getIntCapture true) sample_world)) = []
  /\ cerr (snd (perform sample_dev (call_pinMode 7 INPUT) sample_world)) = []
  /\ cerr (snd (pinMode_raw sample_dev 0 2 sample_world))
     = ["Invalid input: pinMode(pin, INPUT/OUTPUT/INPUT_PULLUP)"].
Proof.
  split; [ | split].
  - apply (accepted_call_is_silent sample_dev (call_getIntCapture true)
             sample_world); reflexivity.
  - apply (accepted_call_is_silent sample_dev (call_pinMode 7 INPUT)
             sample_world); reflexivity.
  - destruct (accepted_call_is_silent sample_dev (call_pinMode 7 INPUT)
                sample_world eq_refl eq_refl) as (_ & _ & _ & D & _).
    apply (D 0 2); lia.
Defined.

(** With a pin in [0, 15] and a mode value that is none of its enumerators,
    [pinMode] still reads the direction and the pull-up register, and
    [intTriggerMode] the interrupt-control and the default-compare register;
    each then prints its ["Invalid input"] line and returns: on any bus no
    byte is stored and no register changes. *)
Theorem unknown_mode_reads_then_rejects
        (self : MCP23017) (pin mode : Z) (w : World) :
  0 <= pin <= 15 ->
  (mode <> 0 -> mode <> 1 -> mode <> 3 ->
   pinMode_raw self pin mode w
   = (tt, log_cerr "Invalid input: pinMode(pin, INPUT/OUTPUT/INPUT_PULLUP)"
            (snd (readReg self (bank pin GPPUA GPPUB)
                    (snd (readReg self (bank pin IODIRA IODIRB) w)))))
   /\ reads_only w (snd (pinMode_raw self pin mode w)))
  /\ (mode <> 0 -> mode <> 1 -> mode <> 2 ->
      intTriggerMode_raw self pin mode w
      = (tt, log_cerr "Invalid input: pinInterrupt(pin, CHANGE/RISING/FALLING)"
               (snd (readReg self (bank pin DEFVALA DEFVALB)
                       (snd (readReg self (bank pin INTCONA INTCONB) w)))))
      /\ reads_only w (snd (intTriggerMode_raw self pin mode w))).
Proof.
  intros Hp. split; intros H0 H1 H2.
  - rewrite pinMode_raw_default by assumption. split; [reflexivity | ].
    cbn [snd].
    eapply quiet_trans; [apply readReg_reads_only | ].
    eapply quiet_trans; [apply readReg_reads_only | apply quiet_cerr].
  - rewrite intTriggerMode_raw_default by assumption. split; [reflexivity | ].
    cbn [snd].
    eapply quiet_trans; [apply readReg_reads_only | ].
    eapply quiet_trans; [apply readReg_reads_only | apply quiet_cerr].
Qed.

Lemma unknown_mode_reads_then_rejects_witness :
  regs (snd (pinMode_raw sample_dev 0 2 sample_world)) = regs sample_world
  /\ trace (snd (intTriggerMode_raw sample_dev 9 3 sample_world))
     = [sys_write 3 [INTCONB] 1; sys_read 3 1 1;
        sys_write 3 [DEFVALB] 1; sys_read 3 1 1].
Proof.
  destruct (unknown_mode_reads_then_rejects sample_dev 0 2 sample_world)
    as [P _]; [lia | ].
  destruct (unknown_mode_reads_then_rejects sample_dev 9 3 sample_world)
    as [_ T]; [lia | ].
  split.
  - destruct P as [_ [R _]]; [lia | lia | lia | exact R].
  - destruct T as [E _]; [lia | lia | lia | ]. rewrite E. reflexivity.
Defined.

(** ** Construction *)

Lemma ctor_run (address : Z) (i2cDev : string) (w : World) :
  0 <= open_ret w -> 0 <= ioctl_ret w ->
  let dev := mkMCP23017 (open_ret w) in
  let w1 := log_call (sys_ioctl (open_ret w) address (ioctl_ret w))
              (log_call (sys_open i2cDev (open_ret w)) w) in
  MCP23017_ctor address i2cDev w
  = (dev, snd (writeReg dev IODIRB 0xFF (snd (writeReg dev IODIRA 0xFF w1)))).
Proof.
  intros Hopen Hioctl. cbv zeta.
  unfold MCP23017_ctor, open_, ioctl_I2C_SLAVE. unfold_monad.
  destruct (Z.ltb_spec (open_ret w) 0) as [Hneg | _]; [lia | ]. cbn.
  destruct (Z.ltb_spec (ioctl_ret w) 0) as [Hneg | _]; [lia | ].
  destruct (writeReg _ IODIRA 255 _) as [[] w2]. cbn [snd].
  destruct (writeReg _ IODIRB 255 w2) as [[] w3]. reflexivity.
Qed.

Lemma ctor_working (address : Z) (i2cDev : string) (w : World) :
  0 <= open_ret w -> 0 <= ioctl_ret w -> forallb negb (faults w) = true ->
  let dev := fst (MCP23017_ctor address i2cDev w) in
  let w0 := snd (MCP23017_ctor address i2cDev w) in
  healthy dev w0 = true
  /\ cerr w0 = cerr w
  /\ forall r, regs w0 r
               = if (r =? IODIRA) || (r =? IODIRB) then 0xFF else regs w r.
Proof.
  intros Hopen Hioctl Hf. cbv zeta.
  rewrite ctor_run by assumption. cbn [fst snd].
  set (dev := mkMCP23017 (open_ret w)).
  set (w1 := log_call (sys_ioctl (open_ret w) address (ioctl_ret w))
               (log_call (sys_open i2cDev (open_ret w)) w)).
  assert (H1 : healthy dev w1 = true).
  { unfold healthy. subst dev w1. cbn. rewrite Hf.
    destruct (Z.leb_spec 0 (open_ret w)); [reflexivity | lia]. }
  destruct (writeReg_working dev IODIRA 0xFF w1 H1) as (H2 & R2 & C2).
  destruct (writeReg_working dev IODIRB 0xFF _ H2) as (H3 & R3 & C3).
  split; [exact H3 | ]. split; [rewrite C3, C2; reflexivity | ].
  intros r. rewrite R3, R2. unfold upd. subst w1. cbn.
  destruct (r =? IODIRB) eqn:EB.
  - now rewrite orb_true_r.
  - rewrite orb_false_r. now destruct (r =? IODIRA).
Qed.

(** When [open] and [ioctl] succeed the constructor hands [{IODIRA, 0xFF}]
    and then [{IODIRB, 0xFF}] to [write], the second whether or not the first
    went through.  When no transfer fails, the instance it returns works, both
    direction registers hold [0xFF] (all pins inputs), every other register
    holds what it held and nothing is printed. *)
Theorem constructor_sets_all_pins_to_input
        (address : Z) (i2cDev : string) (w : World) :
  0 <= open_ret w -> 0 <= ioctl_ret w ->
  let dev := fst (MCP23017_ctor address i2cDev w) in
  let w0 := snd (MCP23017_ctor address i2cDev w) in
  fd dev = open_ret w
  /\ (exists r1 r2,
        trace w0 = trace w ++ [sys_open i2cDev (open_ret w);
                               sys_ioctl (open_ret w) address (ioctl_ret w);
                               sys_write (open_ret w) [IODIRA; 0xFF] r1;
                               sys_write (open_ret w) [IODIRB; 0xFF] r2])
  /\ (forallb negb (faults w) = true ->
      healthy dev w0 = true
      /\ cerr w0 = cerr w
      /\ forall r, regs w0 r
                   = if (r =? IODIRA) || (r =? IODIRB) then 0xFF else regs w r).
Proof.
  intros Hopen Hioctl. cbv zeta.
  split; [rewrite ctor_run by assumption; reflexivity | ]. split.
  - rewrite ctor_run by assumption. cbn [snd].
    set (dev := mkMCP23017 (open_ret w)).
    set (w1 := log_call (sys_ioctl (open_ret w) address (ioctl_ret w))
                 (log_call (sys_open i2cDev (open_ret w)) w)).
    destruct (writeReg_trace dev IODIRA 0xFF w1) as [r1 T1].
    destruct (writeReg_trace dev IODIRB 0xFF (snd (writeReg dev IODIRA 0xFF w1)))
      as [r2 T2].
    exists r1, r2. rewrite T2, T1. subst w1. cbn.
    rewrite <- !app_assoc. reflexivity.
  - intros Hf. now apply ctor_working.
Qed.

Lemma constructor_sets_all_pins_to_input_witness :
  let w0 := snd (MCP23017_ctor 0x20 "/dev/i2c-1" sample_world) in
  regs w0 IODIRA = 0xFF /\ regs w0 IODIRB = 0xFF /\ regs w0 OLATA = 0xF0.
Proof.
  destruct (constructor_sets_all_pins_to_input 0x20 "/dev/i2c-1" sample_world)
    as (_ & _ & F); [cbn; lia | cbn; lia | ].
  destruct (F eq_refl) as (_ & _ & R). cbv zeta. rewrite !R. repeat split.
Defined.

(** ** The example program *)

(** On a system where [open] and [ioctl] succeed and no transfer fails,
    [highlow.cpp] returns 0 and prints nothing on [std::cerr]; it leaves pin 1
    an output without pull-up, driven low: [IODIRA] holds [0xFD], [IODIRB]
    [0xFF], and [GPPUA] and [OLATA] hold their former bytes with bit 1
    cleared.  No other register, and no other bit of these, has changed. *)
Theorem highlow_leaves_pin_low (w : World) :
  0 <= open_ret w -> 0 <= ioctl_ret w -> forallb negb (faults w) = true ->
  let w' := snd (highlow_main w) in
  fst (highlow_main w) = 0
  /\ cerr w' = cerr w
  /\ forall r,
       regs w' r
       = if r =? OLATA then and_not_bit (u8 (regs w OLATA)) 1
         else if r =? GPPUA then and_not_bit (u8 (regs w GPPUA)) 1
         else if r =? IODIRA then 0xFD
         else if r =? IODIRB then 0xFF
         else regs w r.
Proof.
  intros Hopen Hioctl Hf. cbv zeta.
  destruct (ctor_working 0x20 "/dev/i2c-1" w Hopen Hioctl Hf) as (H0 & C0 & R0).
  destruct (MCP23017_ctor 32 "/dev/i2c-1" w) as [mcp w0] eqn:EC.
  cbn [fst snd] in *.
  assert (E : forall w0,
             (try_catch
                (lift (pinMode mcp highlowPin OUTPUT) ;;!
                 lift (pinWrite mcp highlowPin HIGH) ;;!
                 lift (pinWrite mcp highlowPin LOW))
                (fun what => cerr_line what) ;; ret 0) w0
             = (0, snd ((pinMode mcp highlowPin OUTPUT ;;
                         pinWrite mcp highlowPin HIGH ;;
                         pinWrite mcp highlowPin LOW) w0))).
  { intros x. unfold_monad.
    destruct (pinMode mcp highlowPin OUTPUT x) as [[] x1].
    destruct (pinWrite mcp highlowPin HIGH x1) as [[] x2].
    destruct (pinWrite mcp highlowPin LOW x2) as [[] x3]. reflexivity. }
  assert (EM : highlow_main w
               = (0, snd ((pinMode mcp highlowPin OUTPUT ;;
                           pinWrite mcp highlowPin HIGH ;;
                           pinWrite mcp highlowPin LOW) w0))).
  { unfold highlow_main. unfold bind at 1. rewrite EC. apply E. }
  rewrite EM. clear E EM. cbn [fst snd]. split; [reflexivity | ].
  rewrite !snd_seq.
  assert (Hp : 0 <= highlowPin <= 15) by (unfold highlowPin; lia).
  rewrite pinMode_is_rmw2, !pinWrite_is_rmw by (exact Hp || discriminate).
  change (bank highlowPin IODIRA IODIRB) with IODIRA.
  change (bank highlowPin GPPUA GPPUB) with GPPUA.
  change (bank highlowPin OLATA OLATB) with OLATA.
  change (highlowPin mod 8) with 1.
  match goal with
  | |- context [rmw2 mcp IODIRA GPPUA ?f ?g w0] =>
      destruct (rmw2_working mcp IODIRA GPPUA f g w0 H0) as (H1 & C1 & R1)
  end.
  match goal with
  | |- context [rmw mcp OLATA ?f (snd (rmw2 ?a ?b ?c ?d ?e ?x))] =>
      destruct (rmw_working_at mcp OLATA f (snd (rmw2 a b c d e x)) H1)
        as (H2 & C2 & R2)
  end.
  match goal with
  | |- context [rmw mcp OLATA ?f (snd (rmw mcp OLATA ?g ?x))] =>
      destruct (rmw_working_at mcp OLATA f (snd (rmw mcp OLATA g x)) H2)
        as (H3 & C3 & R3)
  end.
  split; [congruence | ].
  intros r. rewrite R3, (R2 OLATA), (R2 r), (R1 OLATA), (R1 r), !R0.
  unfold OLATA, GPPUA, IODIRA, IODIRB.
  destruct (Z.eqb_spec r 20) as [-> | _]; cbn [Z.eqb Pos.eqb orb].
  - rewrite (u8_small (or_bit _ _)) by apply bit_ops_range.
    pose proof (u8_range (regs w 20)).
    apply Z.bits_inj'. intros i Hi. byte_bits. split_eqb; reflexivity.
  - destruct (Z.eqb_spec r 12) as [-> | _]; [reflexivity | ].
    destruct (Z.eqb_spec r 0) as [-> | _]; [reflexivity | ].
    cbn [orb]. destruct (r =? 1); reflexivity.
Qed.

Lemma highlow_leaves_pin_low_witness :
  regs (snd (highlow_main sample_world)) OLATA = 0xF0
  /\ regs (snd (highlow_main sample_world)) IODIRA = 0xFD
  /\ fst (highlow_main sample_world) = 0.
Proof.
  destruct (highlow_leaves_pin_low sample_world) as (Z0 & _ & R);
    [cbn; lia | cbn; lia | reflexivity | ].
  rewrite !R. split; [reflexivity | ]. split; [reflexivity | exact Z0].
Defined.

(** ** Capture and flags together *)

(** [getIntCapture] reports the pins [getInterruptPins] reports: called in
    the same world, with or without their clears, the pins of the events of
    the one are the list of the other, in the same order. *)
Theorem capture_reports_interrupt_pins
        (self : MCP23017) (clear clear' : bool) (w : World) :
  map ev_pin (fst (getIntCapture self clear w))
  = fst (getInterruptPins self clear' w).
Proof.
  rewrite getInterruptPins_run, getInterruptFlags_value. cbn [fst].
  unfold getIntCapture, bind.
  destruct (readReg self INTFA w) as [a w1]. cbn [fst snd].
  destruct (readReg self INTFB w1) as [b w2]. cbn [fst snd].
  destruct (readReg self INTCAPA w2) as [capA w3].
  destruct (readReg self INTCAPB w3) as [capB w4].
  rewrite capture_loop_spec by lia. cbv zeta. cbn [fst app].
  fold all_pins. fold (assemble16 b a).
  rewrite map_map. cbn [ev_pin]. apply map_id.
Qed.
